(** * Mahony AHRS filter (src/Mahony.js): a shallow embedding and its properties

    The filter is one JavaScript factory, [Mahony(sampleInterval)], whose
    closure variables hold the state and whose returned object exposes
    [initialise], [update], [getQuaternion] and [toVector].

    The code is arithmetic on JavaScript numbers.  It is written here once,
    over an interface [JSNumber] of the operations the source uses, and read
    at [spec_float] at binary64 (the Standard Library's executable IEEE 754
    specification): the numbers the program really computes with.  Where a
    statement is about the distance of a computed quaternion from a unit
    one, each binary64 number is measured by the real number it stands for;
    the program itself is never run on real numbers.

    The functions of the JavaScript [Math] object are not part of the source;
    they are a parameter ([MathLib]) constrained only by what ECMAScript
    prescribes for them. *)

From Stdlib Require Import ZArith List Bool Lia.
From Stdlib Require Import SpecFloat.
From Stdlib Require Import Reals Lra Psatz.
Import ListNotations.

Set Implicit Arguments.

(* ================================================================== *)
(** ** JavaScript numbers as the source uses them *)

Class JSNumber (num : Type) : Type := {
  lit_0    : num;                       (* 0, 0.0 *)
  lit_half : num;                       (* 0.5 *)
  lit_1    : num;                       (* 1, 1.0 *)
  lit_2    : num;                       (* 2, 2.0 *)
  lit_1000 : num;                       (* 1000 *)
  num_add  : num -> num -> num;
  num_sub  : num -> num -> num;
  num_mul  : num -> num -> num;
  num_div  : num -> num -> num;
  num_neg  : num -> num;                (* unary minus *)
  strict_eq : num -> num -> bool;       (* === *)
  num_gt   : num -> num -> bool;        (* > *)
  bit_or   : option num -> num -> num;  (* a | b; None is an argument left undefined *)
  Math_pow  : num -> num -> num;
  Math_sqrt : num -> num;
  Math_sin  : num -> num;
  Math_cos  : num -> num;
  Math_acos : num -> num
}.

Declare Scope js_scope.
Delimit Scope js_scope with js.
Infix "+" := num_add : js_scope.
Infix "-" := num_sub : js_scope.
Infix "*" := num_mul : js_scope.
Infix "/" := num_div : js_scope.
Notation "- x" := (num_neg x) : js_scope.
Notation "x === y" := (strict_eq x y) (at level 70, no associativity) : js_scope.
Notation "x >? y" := (num_gt x y) (at level 70, no associativity) : js_scope.

(* ================================================================== *)
(** ** The filter *)

Section Filter.
Context {num : Type} {N : JSNumber num}.
Local Open Scope js_scope.

(** The closure variables of [Mahony] that outlive construction
    (lines 29-37).  [sampleFreq], [twoKpDef] and [twoKiDef] are only read
    while the others are initialised. *)
Record state : Type := mkState {
  recipSampleFreq : num;
  twoKp : num;
  twoKi : num;
  q0 : num;
  q1 : num;
  q2 : num;
  q3 : num;
  integralFBx : num;
  integralFBy : num;
  integralFBz : num
}.

Definition set_recipSampleFreq (s : state) (r : num) : state :=
  mkState r (twoKp s) (twoKi s) (q0 s) (q1 s) (q2 s) (q3 s)
          (integralFBx s) (integralFBy s) (integralFBz s).

Definition set_quaternion (s : state) (a b c d : num) : state :=
  mkState (recipSampleFreq s) (twoKp s) (twoKi s) a b c d
          (integralFBx s) (integralFBy s) (integralFBz s).

Definition set_integralFB (s : state) (x y z : num) : state :=
  mkState (recipSampleFreq s) (twoKp s) (twoKi s) (q0 s) (q1 s) (q2 s) (q3 s)
          x y z.

(** [module.exports = function Mahony(sampleInterval)], lines 20-37. *)
Definition Mahony (sampleInterval : num) : state :=
  let sampleFreq := lit_1000 / sampleInterval in
  let twoKpDef := lit_2 * lit_half in
  let twoKiDef := lit_2 * lit_0 in
  let recipSampleFreq := lit_1 / sampleFreq in
  mkState recipSampleFreq twoKpDef twoKiDef
          lit_1 lit_0 lit_0 lit_0
          lit_0 lit_0 lit_0.

(** [initialise], lines 50-57. *)
Definition initialise (s : state) (amx amy amz : num) : state :=
  let angle := lit_0 in
  let sinAngle := Math_sin (angle / lit_2) in
  set_quaternion s (Math_cos (angle / lit_2))
                   (amx * sinAngle) (amy * sinAngle) (amz * sinAngle).

(** [getQuaternion], lines 61-68. *)
Record quaternion : Type := mkQuaternion { w : num; x : num; y : num; z : num }.

Definition getQuaternion (s : state) : quaternion :=
  mkQuaternion (q0 s) (q1 s) (q2 s) (q3 s).

(** [toVector], lines 75-84. *)
Record axis_angle : Type :=
  mkAxisAngle { angle : num; vx : num; vy : num; vz : num }.

Definition toVector (s : state) : axis_angle :=
  let angle := lit_2 * Math_acos (q0 s) in
  let sinAngle := Math_sin (angle / lit_2) in
  mkAxisAngle angle (q1 s / sinAngle) (q2 s / sinAngle) (q3 s / sinAngle).

(** The test [(a === 0.0) && (b === 0.0) && (c === 0.0)] of lines 103, 174
    and 180. *)
Definition all_zero (a b c : num) : bool :=
  (a === lit_0) && (b === lit_0) && (c === lit_0).

(** "Compute and apply integral feedback if enabled" and "Apply proportional
    feedback", lines 121-136 and 226-242 (the same text in both functions):
    from the error [halfe*] to the corrected rates and the new integral
    terms. *)
Definition apply_feedback (s : state) (gx gy gz halfex halfey halfez : num)
  : num * num * num * state :=
  let '(gx, gy, gz, s) :=
    if twoKi s >? lit_0 then
      let ix := integralFBx s + twoKi s * halfex * recipSampleFreq s in
      let iy := integralFBy s + twoKi s * halfey * recipSampleFreq s in
      let iz := integralFBz s + twoKi s * halfez * recipSampleFreq s in
      (gx + ix, gy + iy, gz + iz, set_integralFB s ix iy iz)
    else
      (gx, gy, gz, set_integralFB s lit_0 lit_0 lit_0) in
  (gx + twoKp s * halfex, gy + twoKp s * halfey, gz + twoKp s * halfez, s).

(** The body of the accelerometer guard of [mahonyAHRSupdateIMU],
    lines 104-136. *)
Definition imu_feedback (s : state) (gx gy gz ax ay az : num)
  : num * num * num * state :=
  let recipNorm := Math_pow (ax * ax + ay * ay + az * az) (- lit_half) in
  let ax := ax * recipNorm in
  let ay := ay * recipNorm in
  let az := az * recipNorm in
  let halfvx := q1 s * q3 s - q0 s * q2 s in
  let halfvy := q0 s * q1 s + q2 s * q3 s in
  let halfvz := q0 s * q0 s - lit_half + q3 s * q3 s in
  let halfex := ay * halfvz - az * halfvy in
  let halfey := az * halfvx - ax * halfvz in
  let halfez := ax * halfvy - ay * halfvx in
  apply_feedback s gx gy gz halfex halfey halfez.

(** The body of the accelerometer guard of [mahonyAHRSupdate],
    lines 182-242. *)
Definition ahrs_feedback (s : state) (gx gy gz ax ay az mx my mz : num)
  : num * num * num * state :=
  let recipNorm := Math_pow (ax * ax + ay * ay + az * az) (- lit_half) in
  let ax := ax * recipNorm in
  let ay := ay * recipNorm in
  let az := az * recipNorm in
  let recipNorm := Math_pow (mx * mx + my * my + mz * mz) (- lit_half) in
  let mx := mx * recipNorm in
  let my := my * recipNorm in
  let mz := mz * recipNorm in
  let q0q0 := q0 s * q0 s in
  let q0q1 := q0 s * q1 s in
  let q0q2 := q0 s * q2 s in
  let q0q3 := q0 s * q3 s in
  let q1q1 := q1 s * q1 s in
  let q1q2 := q1 s * q2 s in
  let q1q3 := q1 s * q3 s in
  let q2q2 := q2 s * q2 s in
  let q2q3 := q2 s * q3 s in
  let q3q3 := q3 s * q3 s in
  let hx := lit_2 * (mx * (lit_half - q2q2 - q3q3) + my * (q1q2 - q0q3)
                     + mz * (q1q3 + q0q2)) in
  let hy := lit_2 * (mx * (q1q2 + q0q3) + my * (lit_half - q1q1 - q3q3)
                     + mz * (q2q3 - q0q1)) in
  let bx := Math_sqrt (hx * hx + hy * hy) in
  let bz := lit_2 * (mx * (q1q3 - q0q2) + my * (q2q3 + q0q1)
                     + mz * (lit_half - q1q1 - q2q2)) in
  let halfvx := q1q3 - q0q2 in
  let halfvy := q0q1 + q2q3 in
  let halfvz := q0q0 - lit_half + q3q3 in
  let halfwx := bx * (lit_half - q2q2 - q3q3) + bz * (q1q3 - q0q2) in
  let halfwy := bx * (q1q2 - q0q3) + bz * (q0q1 + q2q3) in
  let halfwz := bx * (q0q2 + q1q3) + bz * (lit_half - q1q1 - q2q2) in
  let halfex := (ay * halfvz - az * halfvy) + (my * halfwz - mz * halfwy) in
  let halfey := (az * halfvx - ax * halfvz) + (mz * halfwx - mx * halfwz) in
  let halfez := (ax * halfvy - ay * halfvx) + (mx * halfwy - my * halfwx) in
  apply_feedback s gx gy gz halfex halfey halfez.

(** "Integrate rate of change of quaternion", lines 140-149 and 246-255
    (the same text in both functions). *)
Definition integrate_rate (s : state) (gx gy gz : num) : state :=
  let gx := gx * (lit_half * recipSampleFreq s) in
  let gy := gy * (lit_half * recipSampleFreq s) in
  let gz := gz * (lit_half * recipSampleFreq s) in
  let qa := q0 s in
  let qb := q1 s in
  let qc := q2 s in
  let n0 := q0 s + (- qb * gx - qc * gy - q3 s * gz) in
  let n1 := q1 s + (qa * gx + qc * gz - q3 s * gy) in
  let n2 := q2 s + (qa * gy - qb * gz + q3 s * gx) in
  let n3 := q3 s + (qa * gz + qb * gy - qc * gx) in
  set_quaternion s n0 n1 n2 n3.

(** "Normalise quaternion", lines 152-156 and 258-262 (the same text in both
    functions). *)
Definition normalise (s : state) : state :=
  let recipNorm :=
    Math_pow (q0 s * q0 s + q1 s * q1 s + q2 s * q2 s + q3 s * q3 s)
             (- lit_half) in
  set_quaternion s (q0 s * recipNorm) (q1 s * recipNorm)
                   (q2 s * recipNorm) (q3 s * recipNorm).

(** [mahonyAHRSupdateIMU], lines 96-157. *)
Definition mahonyAHRSupdateIMU (s : state) (gx gy gz ax ay az : num) : state :=
  let '(gx, gy, gz, s) :=
    if negb (all_zero ax ay az) then imu_feedback s gx gy gz ax ay az
    else (gx, gy, gz, s) in
  normalise (integrate_rate s gx gy gz).

(** The part of [mahonyAHRSupdate] after the magnetometer test,
    lines 179-262: the 9-axis algorithm. *)
Definition ahrs_body (s : state) (gx gy gz ax ay az mx my mz : num) : state :=
  let '(gx, gy, gz, s) :=
    if negb (all_zero ax ay az)
    then ahrs_feedback s gx gy gz ax ay az mx my mz
    else (gx, gy, gz, s) in
  normalise (integrate_rate s gx gy gz).

(** [mahonyAHRSupdate], lines 164-263; it is the [update] of the returned
    object.  [deltaTimeSec] is the one argument callers leave out. *)
Definition mahonyAHRSupdate (s : state)
    (gx gy gz ax ay az mx my mz : num) (deltaTimeSec : option num) : state :=
  let s := set_recipSampleFreq s (bit_or deltaTimeSec (recipSampleFreq s)) in
  if all_zero mx my mz then
    mahonyAHRSupdateIMU s gx gy gz ax ay az
  else
    ahrs_body s gx gy gz ax ay az mx my mz.

Definition update := mahonyAHRSupdate.

(** One call of [update], as data, and a run of calls in order. *)
Record sample : Type := mkSample {
  s_gx : num; s_gy : num; s_gz : num;
  s_ax : num; s_ay : num; s_az : num;
  s_mx : num; s_my : num; s_mz : num;
  s_dt : option num
}.

Definition update_with (s : state) (c : sample) : state :=
  update s (s_gx c) (s_gy c) (s_gz c) (s_ax c) (s_ay c) (s_az c)
           (s_mx c) (s_my c) (s_mz c) (s_dt c).

Definition run_updates (s : state) (cs : list sample) : state :=
  fold_left update_with cs s.

(** The four operations of the returned object, lines 40-87.
    [getQuaternion] and [toVector] only read the state. *)
Inductive operation : Type :=
| OpInitialise (amx amy amz : num)
| OpUpdate (c : sample)
| OpGetQuaternion
| OpToVector.

Definition perform (s : state) (o : operation) : state :=
  match o with
  | OpInitialise amx amy amz => initialise s amx amy amz
  | OpUpdate c => update_with s c
  | OpGetQuaternion => s
  | OpToVector => s
  end.

Definition run (s : state) (os : list operation) : state :=
  fold_left perform os s.

(** The two ways through [update]: with a zero accelerometer reading the
    rates go to the integration as they came; otherwise they go through the
    feedback block with the error of the variant chosen.  Either way the call
    ends in the integration and the normalisation. *)
Inductive update_path (s : state) (gx gy gz ax ay az : num)
    (dt : option num) (s' : state) : Prop :=
| path_prediction :
    all_zero ax ay az = true ->
    s' = normalise
           (integrate_rate
              (set_recipSampleFreq s (bit_or dt (recipSampleFreq s)))
              gx gy gz) ->
    update_path s gx gy gz ax ay az dt s'
| path_correction (ex ey ez : num) :
    all_zero ax ay az = false ->
    (let '(gx', gy', gz', s2) :=
       apply_feedback (set_recipSampleFreq s (bit_or dt (recipSampleFreq s)))
                      gx gy gz ex ey ez in
     s' = normalise (integrate_rate s2 gx' gy' gz')) ->
    update_path s gx gy gz ax ay az dt s'.

(** [update] without its last block: the state, holding the integrated
    quaternion, that the call hands to "Normalise quaternion" (lines 164-255,
    and lines 96-149 through the call of line 175). *)
Definition integrated (s : state) (gx gy gz ax ay az mx my mz : num)
    (deltaTimeSec : option num) : state :=
  let s := set_recipSampleFreq s (bit_or deltaTimeSec (recipSampleFreq s)) in
  let '(gx, gy, gz, s) :=
    if all_zero mx my mz then
      if negb (all_zero ax ay az) then imu_feedback s gx gy gz ax ay az
      else (gx, gy, gz, s)
    else
      if negb (all_zero ax ay az)
      then ahrs_feedback s gx gy gz ax ay az mx my mz
      else (gx, gy, gz, s) in
  integrate_rate s gx gy gz.

Definition integrated_with (s : state) (c : sample) : state :=
  integrated s (s_gx c) (s_gy c) (s_gz c) (s_ax c) (s_ay c) (s_az c)
             (s_mx c) (s_my c) (s_mz c) (s_dt c).

(** The accelerometer's part of the error, the same text in both functions:
    lines 105-118, and lines 183-186, 213-215 and the first cross product of
    each of lines 221-223. *)
Definition gravity_error (s : state) (ax ay az : num) : num * num * num :=
  let recipNorm := Math_pow (ax * ax + ay * ay + az * az) (- lit_half) in
  let ax := ax * recipNorm in
  let ay := ay * recipNorm in
  let az := az * recipNorm in
  let halfvx := q1 s * q3 s - q0 s * q2 s in
  let halfvy := q0 s * q1 s + q2 s * q3 s in
  let halfvz := q0 s * q0 s - lit_half + q3 s * q3 s in
  (ay * halfvz - az * halfvy, az * halfvx - ax * halfvz,
   ax * halfvy - ay * halfvx).

(** The magnetometer's part of the error, the magnetic-field correction:
    lines 189-192, 195-210, 216-218 and the second cross product of each of
    lines 221-223. *)
Definition magnetic_error (s : state) (mx my mz : num) : num * num * num :=
  let recipNorm := Math_pow (mx * mx + my * my + mz * mz) (- lit_half) in
  let mx := mx * recipNorm in
  let my := my * recipNorm in
  let mz := mz * recipNorm in
  let q0q0 := q0 s * q0 s in
  let q0q1 := q0 s * q1 s in
  let q0q2 := q0 s * q2 s in
  let q0q3 := q0 s * q3 s in
  let q1q1 := q1 s * q1 s in
  let q1q2 := q1 s * q2 s in
  let q1q3 := q1 s * q3 s in
  let q2q2 := q2 s * q2 s in
  let q2q3 := q2 s * q3 s in
  let q3q3 := q3 s * q3 s in
  let hx := lit_2 * (mx * (lit_half - q2q2 - q3q3) + my * (q1q2 - q0q3)
                     + mz * (q1q3 + q0q2)) in
  let hy := lit_2 * (mx * (q1q2 + q0q3) + my * (lit_half - q1q1 - q3q3)
                     + mz * (q2q3 - q0q1)) in
  let bx := Math_sqrt (hx * hx + hy * hy) in
  let bz := lit_2 * (mx * (q1q3 - q0q2) + my * (q2q3 + q0q1)
                     + mz * (lit_half - q1q1 - q2q2)) in
  let halfwx := bx * (lit_half - q2q2 - q3q3) + bz * (q1q3 - q0q2) in
  let halfwy := bx * (q1q2 - q0q3) + bz * (q0q1 + q2q3) in
  let halfwz := bx * (q0q2 + q1q3) + bz * (lit_half - q1q1 - q2q2) in
  (my * halfwz - mz * halfwy, mz * halfwx - mx * halfwz,
   mx * halfwy - my * halfwx).

(** The sum of lines 221-223, component by component. *)
Definition error_sum (v w : num * num * num) : num * num * num :=
  let '(vx, vy, vz) := v in
  let '(wx, wy, wz) := w in
  (vx + wx, vy + wy, vz + wz).

(** From an error to the end of the call: the feedback block, the
    integration and the normalisation (lines 121-156 and 226-262). *)
Definition correct_and_integrate (s : state) (gx gy gz : num)
    (halfe : num * num * num) : state :=
  let '(halfex, halfey, halfez) := halfe in
  let '(gx, gy, gz, s) := apply_feedback s gx gy gz halfex halfey halfez in
  normalise (integrate_rate s gx gy gz).

End Filter.

Arguments state num : clear implicits.
Arguments sample num : clear implicits.
Arguments operation num : clear implicits.
Arguments quaternion num : clear implicits.
Arguments axis_angle num : clear implicits.

(* ================================================================== *)
(** ** The binary64 carrier *)

Module B64.

Local Open Scope Z_scope.

Definition prec : Z := 53.
Definition emax : Z := 1024.

Definition float : Type := spec_float.

Definition add : float -> float -> float := SFadd prec emax.
Definition sub : float -> float -> float := SFsub prec emax.
Definition mul : float -> float -> float := SFmul prec emax.
Definition div : float -> float -> float := SFdiv prec emax.
Definition sqrt : float -> float := SFsqrt prec emax.
Definition opp : float -> float := SFopp.
Definition eqb : float -> float -> bool := SFeqb.
Definition ltb : float -> float -> bool := SFltb.
Definition leb : float -> float -> bool := SFleb.
Definition abs : float -> float := SFabs.

(** The Number whose value is the integer [n] (exact while |n| < 2^53). *)
Definition of_Z (n : Z) : float := binary_normalize prec emax n 0 false.

Definition pzero : float := S754_zero false.
Definition nzero : float := S754_zero true.
Definition pinf : float := S754_infinity false.
Definition nan : float := S754_nan.
Definition one : float := Eval vm_compute in of_Z 1.
Definition two : float := Eval vm_compute in of_Z 2.
Definition half : float := Eval vm_compute in binary_normalize prec emax 1 (-1) false.
Definition thousand : float := Eval vm_compute in of_Z 1000.

(** A JavaScript number, as opposed to an arbitrary [spec_float] triple. *)
Definition valid (a : float) : bool := valid_binary prec emax a.

Definition is_zero (a : float) : bool :=
  match a with S754_zero _ => true | _ => false end.

(** Neither NaN nor an infinity: what [Number.isFinite] tests. *)
Definition is_finite (a : float) : bool :=
  match a with S754_zero _ | S754_finite _ _ _ => true | _ => false end.

(** ECMAScript ToInt32: NaN, zeros and infinities give 0; otherwise truncate
    towards zero, reduce modulo 2^32 and read the result as signed. *)
Definition wrap32 (n : Z) : Z :=
  let u := n mod 2 ^ 32 in
  if u <? 2 ^ 31 then u else u - 2 ^ 32.

Definition truncate (a : float) : Z :=
  match a with
  | S754_finite s m e =>
      let t := if 0 <=? e then Zpos m * 2 ^ e else Zpos m / 2 ^ (- e) in
      if s then - t else t
  | _ => 0
  end.

Definition ToInt32 (a : float) : Z := wrap32 (truncate a).

(** [a | b]: both operands go through ToInt32 and the result is again a
    signed 32-bit integer; an argument left out is [undefined], which ToInt32
    maps to 0. *)
Definition bitwise_or (a : option float) (b : float) : float :=
  let ia := match a with Some a => ToInt32 a | None => 0 end in
  of_Z (wrap32 (Z.lor ia (ToInt32 b))).

(** The functions of [Math] that the filter calls.  ECMAScript leaves their
    values implementation-approximated except at a few arguments. *)
Class MathLib : Type := mkMathLib {
  lib_pow  : float -> float -> float;
  lib_sin  : float -> float;
  lib_cos  : float -> float;
  lib_acos : float -> float
}.

(** What ECMAScript fixes (Number::exponentiate, Math.sin, Math.cos,
    Math.acos), at the exponent the filter uses. *)
Record conforms (M : MathLib) : Prop := mkConforms {
  pow_nan   : lib_pow nan (opp half) = nan;
  pow_pinf  : lib_pow pinf (opp half) = pzero;
  pow_pzero : lib_pow pzero (opp half) = pinf;
  sin_pzero : lib_sin pzero = pzero;
  cos_pzero : lib_cos pzero = one;
  acos_one  : lib_acos one = pzero
}.

(** Not fixed by ECMAScript, true of the engines: 1 to any finite power is
    exactly 1. *)
Definition pow_one_exact (M : MathLib) : Prop :=
  lib_pow one (opp half) = one.

(** JavaScript numbers: binary64 arithmetic rounded to nearest even, [===]
    and [>] as IEEE comparisons (-0 equals +0, NaN equals nothing), and
    [Math.sqrt] as the IEEE square root. *)
#[export] Instance number {M : MathLib} : JSNumber float := {
  lit_0 := pzero;
  lit_half := half;
  lit_1 := one;
  lit_2 := two;
  lit_1000 := thousand;
  num_add := add;
  num_sub := sub;
  num_mul := mul;
  num_div := div;
  num_neg := opp;
  strict_eq := eqb;
  num_gt := fun a b => ltb b a;
  bit_or := bitwise_or;
  Math_pow := lib_pow;
  Math_sqrt := sqrt;
  Math_sin := lib_sin;
  Math_cos := lib_cos;
  Math_acos := lib_acos
}.

(** A reference [Math]: correctly rounded [1 / sqrt x] for the exponent -0.5
    (with the zero bases as ECMAScript prescribes them), and the leading
    terms of the series for the rest.  It is only used to run the filter on
    concrete inputs. *)
Definition ref_pow (a b : float) : float :=
  if eqb b (opp half) then
    match a with
    | S754_zero _ => pinf
    | _ => div one (sqrt a)
    end
  else if is_zero b then one
  else nan.

Definition ref_sin (a : float) : float :=
  sub a (div (mul a (mul a a)) (of_Z 6)).

Definition ref_cos (a : float) : float :=
  sub one (div (mul a a) two).

Definition ref_acos (a : float) : float :=
  sqrt (mul two (sub one a)).

Definition ref_math : MathLib := mkMathLib ref_pow ref_sin ref_cos ref_acos.

Definition ref_number : JSNumber float := @number ref_math.

(** A [Math] that meets what ECMAScript fixes and has 1 to any power at 1,
    but is off by a factor of 2 elsewhere.  It is only used to show what
    the norm after a call depends on. *)
Definition loose_pow (a b : float) : float :=
  match a with
  | S754_finite false _ _ => if eqb a one then one else mul two (ref_pow a b)
  | _ => ref_pow a b
  end.

Definition loose_math : MathLib := mkMathLib loose_pow ref_sin ref_cos ref_acos.

(** Numbers as a caller writes them: an integer, or a decimal fraction
    [n / 10^k] (one correctly rounded division, as a decimal literal is
    when both parts are exact). *)
Definition decimal (n : Z) (k : Z) : float := div (of_Z n) (of_Z (10 ^ k)).

(** The filter's quaternion compared to (1, 0, 0, 0) with [===]. *)
Definition is_identity (q : quaternion float) : bool :=
  eqb (w q) one && eqb (x q) pzero && eqb (y q) pzero && eqb (z q) pzero.

(** The norm of a quaternion, and the test that it is 1 within
    a tolerance, both in binary64. *)
Definition norm (q : quaternion float) : float :=
  sqrt (add (add (add (mul (w q) (w q)) (mul (x q) (x q))) (mul (y q) (y q)))
            (mul (z q) (z q))).

Definition unit_within (tol : float) (q : quaternion float) : bool :=
  leb (abs (sub (norm q) one)) tol.

(** 0 <= a < 1, as the program would test it. *)
Definition in_unit_interval (a : float) : bool := leb pzero a && ltb a one.

(** A [deltaTimeSec] that is left out, or a number in [0, 1) (zero
    included). *)
Definition small_dt (dt : option float) : bool :=
  match dt with
  | None => true
  | Some a => valid a && in_unit_interval a
  end.

(** What [Mahony] stores for a sample interval [a]: 1 / (1000 / a). *)
Definition stored_interval (a : float) : float := div one (div thousand a).

(** The stored value is a number in [0, 1) for each of the sample intervals
    [from], [from + 1], ..., [from + count - 1] ms. *)
Definition stored_below_one (from count : nat) : bool :=
  forallb (fun k => let r := stored_interval (of_Z (Z.of_nat k)) in
                    valid r && in_unit_interval r)
          (seq from count).

(** The mantissa of an integer of fewer than 53 bits, shifted to 53 digits. *)
Definition shift_to_53 (p : positive) : positive :=
  Pos.iter xO p (Z.to_pos (53 - Zpos (digits2_pos p))).

(** The squared norm as the code computes it: the first argument of
    [Math.pow] at lines 152 and 258. *)
Definition squared_norm (s : state float) : float :=
  add (add (add (mul (q0 s) (q0 s)) (mul (q1 s) (q1 s))) (mul (q2 s) (q2 s)))
      (mul (q3 s) (q3 s)).

(** The four components pass [Number.isFinite]. *)
Definition finite_quaternion (q : quaternion float) : bool :=
  is_finite (w q) && is_finite (x q) && is_finite (y q) && is_finite (z q).

End B64.

(* ================================================================== *)
(** ** Measuring binary64 numbers by real numbers *)

Module Measure.
Import B64.
Local Open Scope R_scope.

Definition pow2 (e : Z) : R := powerRZ 2 e.

(** The real number a finite binary64 number stands for (0 for the zeros,
    and for the infinities and NaN, which stand for none). *)
Definition to_R (a : float) : R :=
  match a with
  | S754_finite s m e => (if s then - IZR (Zpos m) else IZR (Zpos m)) * pow2 e
  | _ => 0
  end.

(** The norm of the quaternion read back, as a real number. *)
Definition norm_R (q : quaternion float) : R :=
  R_sqrt.sqrt (to_R (w q) * to_R (w q) + to_R (x q) * to_R (x q)
               + to_R (y q) * to_R (y q) + to_R (z q) * to_R (z q)).

(** [v] is [x] after one rounding to nearest: off by at most 2^-52 of [x]
    plus [eta] (a unit of the subnormal range). *)
Definition rounds (eta v x : R) : Prop :=
  Rabs (v - x) <= / 4503599627370496 * Rabs x + eta.

(** A normalisation within the range of the arithmetic, of the state [t]
    that holds the integrated quaternion: the squared norm S the code
    computes is a number of at least 2^-1000 (so neither NaN nor an infinity
    nor an underflow), and [Math.pow(S, -0.5)] = r is accurate there,
    |r^2 S - 1| <= 2^-40. *)
Definition ordinary_normalisation {M : MathLib} (t : state float) : Prop :=
  let S := squared_norm t in
  let r := lib_pow S (opp half) in
  pow2 (-1000) <= to_R S /\
  Rabs (to_R r * to_R r * to_R S - 1) <= pow2 (-40).

(** The same, decided on the mantissas and exponents. *)
Definition ordinary_normalisationb {M : MathLib} (t : state float) : bool :=
  let S := squared_norm t in
  let r := lib_pow S (opp half) in
  match S, r with
  | S754_finite false mS eS, S754_finite _ mr er =>
      let E := (2 * er + eS)%Z in
      (-1000 <=? eS)%Z && (E <=? 0)%Z &&
      (Z.abs (Zpos mr * Zpos mr * Zpos mS - 2 ^ (- E)) * 2 ^ 40 <=? 2 ^ (- E))%Z
  | _, _ => false
  end.

End Measure.

(* ================================================================== *)
(** ** Concrete filters and samples, at binary64 with the reference [Math] *)

Module Run.
Import B64.

Definition filter (sampleIntervalMs : Z) : state float :=
  Mahony (N := ref_number) (of_Z sampleIntervalMs).

Definition call (s : state float) (c : sample float) : state float :=
  update_with (N := ref_number) s c.

Definition calls (s : state float) (cs : list (sample float)) : state float :=
  run_updates (N := ref_number) s cs.

(** [update(gx, 0, 0, 0, 0, 0, 0, 0, 0, dt)]: a rate about one axis, no
    accelerometer, no magnetometer. *)
Definition spin (gx : float) (dt : option float) : sample float :=
  mkSample gx pzero pzero pzero pzero pzero pzero pzero pzero dt.

(** All nine sensor arguments 0, [deltaTimeSec] left out. *)
Definition still : sample float := spin pzero None.

(** Gravity along z, no magnetometer: [update(0.1, 0, 0, 0, 0, 1, 0, 0, 0)]. *)
Definition level : sample float :=
  mkSample (decimal 1 1) pzero pzero pzero pzero one pzero pzero pzero None.

(** Gravity along z and a magnetometer reading:
    [update(0.1, 0, 0, 0, 0, 1, 0.3, 0, 0.5)]. *)
Definition heading : sample float :=
  mkSample (decimal 1 1) pzero pzero pzero pzero one
           (decimal 3 1) pzero (decimal 5 1) None.

(** [update(0.1, 0.2, 0.3, 0, 0, 1, 0, 0, 0, 1)]: turning, gravity along z,
    no magnetometer, a timestep of 1 s. *)
Definition turning : sample float :=
  mkSample (decimal 1 1) (decimal 2 1) (decimal 3 1) pzero pzero one
           pzero pzero pzero (Some one).

(** The same with a magnetometer reading:
    [update(0.1, 0.2, 0.3, 0, 0, 1, 0.3, 0.4, 0.5, 1)]. *)
Definition turning_heading : sample float :=
  mkSample (decimal 1 1) (decimal 2 1) (decimal 3 1) pzero pzero one
           (decimal 3 1) (decimal 4 1) (decimal 5 1) (Some one).

(** No accelerometer reading, without and with the magnetometer reading:
    [update(0.1, 0.2, 0.3, 0, 0, 0, 0, 0, 0, 1)] and
    [update(0.1, 0.2, 0.3, 0, 0, 0, 0.3, 0.4, 0.5, 1)]. *)
Definition falling : sample float :=
  mkSample (decimal 1 1) (decimal 2 1) (decimal 3 1) pzero pzero pzero
           pzero pzero pzero (Some one).

Definition falling_heading : sample float :=
  mkSample (decimal 1 1) (decimal 2 1) (decimal 3 1) pzero pzero pzero
           (decimal 3 1) (decimal 4 1) (decimal 5 1) (Some one).

(** A reading tilted towards x, turning and at rest:
    [update(0.1, 0.2, 0.3, 1, 0, 1, 0, 0, 0, 1)] and
    [update(0, 0, 0, 1, 0, 1, 0, 0, 0, 1)]. *)
Definition turning_tilted : sample float :=
  mkSample (decimal 1 1) (decimal 2 1) (decimal 3 1) one pzero one
           pzero pzero pzero (Some one).

Definition resting_tilted : sample float :=
  mkSample pzero pzero pzero one pzero one pzero pzero pzero (Some one).

End Run.

(* ================================================================== *)
(** ** Further notions used to state properties of the code *)

Module Shape.
Import B64.

(** A zero (of either sign) or NaN: what a zero times anything can be. *)
Definition zero_or_nan (a : float) : bool :=
  match a with S754_zero _ | S754_nan => true | _ => false end.

(** +Infinity or NaN: what the square of a number that is not finite can
    be. *)
Definition pinf_or_nan (a : float) : bool :=
  match a with S754_infinity false | S754_nan => true | _ => false end.

(** A call that leaves [deltaTimeSec] out. *)
Definition no_dt (c : sample float) : bool :=
  match s_dt c with None => true | Some _ => false end.

(** Equal, or zeros of possibly different signs. *)
Definition same_but_zero_sign (a b : float) : Prop :=
  a = b \/ (is_zero a = true /\ is_zero b = true).

(** A call without accelerometer reading, with finite rates and a
    [deltaTimeSec] left out or in [0, 1). *)
Definition coasting (c : sample float) : bool :=
  small_dt (s_dt c) &&
  is_zero (s_ax c) && is_zero (s_ay c) && is_zero (s_az c) &&
  is_finite (s_gx c) && is_finite (s_gy c) && is_finite (s_gz c).

End Shape.


(* ================================================================== *)
(** ** Control flow of [update], at any carrier *)

Section ControlFlow.
Context {num : Type} {N : JSNumber num}.
Local Open Scope js_scope.

(** The feedback block changes the integral terms and nothing else of the
    state. *)
Lemma apply_feedback_keeps (s : state num) (gx gy gz ex ey ez : num) :
  let s' := snd (apply_feedback s gx gy gz ex ey ez) in
  recipSampleFreq s' = recipSampleFreq s /\
  twoKp s' = twoKp s /\ twoKi s' = twoKi s /\
  q0 s' = q0 s /\ q1 s' = q1 s /\ q2 s' = q2 s /\ q3 s' = q3 s.
Proof.
  unfold apply_feedback. destruct (twoKi s >? lit_0); cbn; repeat split.
Qed.

(** With the integral gain not positive, the feedback block leaves the
    integral terms at the literal 0.0, whatever the error and whatever they
    were before. *)
Lemma apply_feedback_zero_gain (s : state num) (gx gy gz ex ey ez : num) :
  (twoKi s >? lit_0) = false ->
  let s' := snd (apply_feedback s gx gy gz ex ey ez) in
  integralFBx s' = lit_0 /\ integralFBy s' = lit_0 /\ integralFBz s' = lit_0.
Proof.
  intros Hki. unfold apply_feedback. rewrite Hki. cbn. repeat split.
Qed.

Lemma update_paths (s : state num) (gx gy gz ax ay az mx my mz : num)
    (dt : option num) :
  update_path s gx gy gz ax ay az dt
              (update s gx gy gz ax ay az mx my mz dt).
Proof.
  unfold update, mahonyAHRSupdate, mahonyAHRSupdateIMU, ahrs_body.
  destruct (all_zero ax ay az) eqn:Ha; cbn [negb].
  - apply path_prediction; [exact Ha |].
    destruct (all_zero mx my mz); reflexivity.
  - destruct (all_zero mx my mz).
    + unfold imu_feedback.
      match goal with |- context [apply_feedback ?a ?b ?c ?d ?e ?f ?g] =>
        apply path_correction with (ex := e) (ey := f) (ez := g);
          [exact Ha |];
        destruct (apply_feedback a b c d e f g) as [[[gx' gy'] gz'] s2] end.
      reflexivity.
    + unfold ahrs_feedback.
      match goal with |- context [apply_feedback ?a ?b ?c ?d ?e ?f ?g] =>
        apply path_correction with (ex := e) (ey := f) (ez := g);
          [exact Ha |];
        destruct (apply_feedback a b c d e f g) as [[[gx' gy'] gz'] s2] end.
      reflexivity.
Qed.

(** Take a call apart along [update_paths]; in the correction case [Hk]
    names what the feedback block kept. *)
Ltac along_update_path s gx gy gz ax ay az mx my mz dt Heq Hk :=
  let ex := fresh "ex" in let ey := fresh "ey" in let ez := fresh "ez" in
  let Ha := fresh "Ha" in
  destruct (update_paths s gx gy gz ax ay az mx my mz dt)
    as [Ha Heq | ex ey ez Ha Heq];
  [ | pose proof (apply_feedback_keeps
                    (set_recipSampleFreq s (bit_or dt (recipSampleFreq s)))
                    gx gy gz ex ey ez) as Hk;
      destruct (apply_feedback
                  (set_recipSampleFreq s (bit_or dt (recipSampleFreq s)))
                  gx gy gz ex ey ez) as [[[? ?] ?] ?] eqn:?;
      cbn [snd] in Hk ].

(** Every path of [update] ends in the two shared blocks, run on a state
    that still has the quaternion of the caller and the merged timestep. *)
Lemma update_shape (s : state num) (gx gy gz ax ay az mx my mz : num)
    (dt : option num) :
  exists (s2 : state num) (gx' gy' gz' : num),
    update s gx gy gz ax ay az mx my mz dt
      = normalise (integrate_rate s2 gx' gy' gz') /\
    recipSampleFreq s2 = bit_or dt (recipSampleFreq s) /\
    twoKp s2 = twoKp s /\ twoKi s2 = twoKi s /\
    q0 s2 = q0 s /\ q1 s2 = q1 s /\ q2 s2 = q2 s /\ q3 s2 = q3 s.
Proof.
  along_update_path s gx gy gz ax ay az mx my mz dt Heq Hk.
  - eexists _, gx, gy, gz. split; [exact Heq | repeat split].
  - eexists _, _, _, _. split; [exact Heq | exact Hk].
Qed.

Lemma update_recipSampleFreq (s : state num) (gx gy gz ax ay az mx my mz : num)
    (dt : option num) :
  recipSampleFreq (update s gx gy gz ax ay az mx my mz dt)
  = bit_or dt (recipSampleFreq s).
Proof.
  destruct (update_shape s gx gy gz ax ay az mx my mz dt)
    as (s2 & x1 & x2 & x3 & Heq & Hr & _).
  rewrite Heq. exact Hr.
Qed.

(** No call changes the gains. *)
Lemma update_gains (s : state num) (c : sample num) :
  twoKp (update_with s c) = twoKp s /\ twoKi (update_with s c) = twoKi s.
Proof.
  unfold update_with.
  destruct (update_shape s (s_gx c) (s_gy c) (s_gz c) (s_ax c) (s_ay c)
              (s_az c) (s_mx c) (s_my c) (s_mz c) (s_dt c))
    as (s2 & x1 & x2 & x3 & Heq & _ & Hp & Hi & _).
  rewrite Heq. split; assumption.
Qed.

(** With the gain not positive, a call with an accelerometer reading resets
    the integral terms whatever they were. *)
Lemma update_resets_integralFB (s : state num)
    (gx gy gz ax ay az mx my mz : num) (dt : option num) :
  (twoKi s >? lit_0) = false ->
  all_zero ax ay az = false ->
  let s' := update s gx gy gz ax ay az mx my mz dt in
  integralFBx s' = lit_0 /\ integralFBy s' = lit_0 /\ integralFBz s' = lit_0.
Proof.
  intros Hki Hacc.
  destruct (update_paths s gx gy gz ax ay az mx my mz dt)
    as [Ha Heq | ex ey ez Ha Heq]; [congruence |].
  pose proof (apply_feedback_zero_gain
                (set_recipSampleFreq s (bit_or dt (recipSampleFreq s)))
                gx gy gz ex ey ez Hki) as Hz.
  destruct (apply_feedback _ gx gy gz ex ey ez) as [[[gx' gy'] gz'] s2].
  cbn [snd] in Hz. cbn zeta. rewrite Heq. exact Hz.
Qed.

Lemma update_zero_gain (s : state num) (c : sample num) :
  (twoKi s >? lit_0) = false ->
  integralFBx s = lit_0 -> integralFBy s = lit_0 -> integralFBz s = lit_0 ->
  integralFBx (update_with s c) = lit_0 /\
  integralFBy (update_with s c) = lit_0 /\
  integralFBz (update_with s c) = lit_0.
Proof.
  intros Hki Hx Hy Hz. unfold update_with.
  destruct (all_zero (s_ax c) (s_ay c) (s_az c)) eqn:Hacc.
  - destruct (update_paths s (s_gx c) (s_gy c) (s_gz c) (s_ax c) (s_ay c)
                (s_az c) (s_mx c) (s_my c) (s_mz c) (s_dt c))
      as [Ha Heq | ex ey ez Ha Heq]; [| congruence].
    rewrite Heq. cbn. auto.
  - apply update_resets_integralFB; assumption.
Qed.

(** The two feedback blocks, from their errors: the 6-axis one corrects with
    the accelerometer's error, the 9-axis one with the sum of the
    accelerometer's and the magnetometer's. *)
Lemma imu_feedback_error (s : state num) (gx gy gz ax ay az : num) :
  (let '(gx, gy, gz, s) := imu_feedback s gx gy gz ax ay az in
   normalise (integrate_rate s gx gy gz))
  = correct_and_integrate s gx gy gz (gravity_error s ax ay az).
Proof. reflexivity. Qed.

Lemma ahrs_feedback_error (s : state num) (gx gy gz ax ay az mx my mz : num) :
  (let '(gx, gy, gz, s) := ahrs_feedback s gx gy gz ax ay az mx my mz in
   normalise (integrate_rate s gx gy gz))
  = correct_and_integrate s gx gy gz
      (error_sum (gravity_error s ax ay az) (magnetic_error s mx my mz)).
Proof. reflexivity. Qed.

(** Every call is the normalisation of the integrated quaternion. *)
Lemma update_normalises (s : state num) (gx gy gz ax ay az mx my mz : num)
    (dt : option num) :
  update s gx gy gz ax ay az mx my mz dt
  = normalise (integrated s gx gy gz ax ay az mx my mz dt).
Proof.
  unfold update, mahonyAHRSupdate, mahonyAHRSupdateIMU, ahrs_body, integrated.
  destruct (all_zero mx my mz); destruct (all_zero ax ay az); cbn [negb];
    try reflexivity.
  - destruct (imu_feedback _ gx gy gz ax ay az) as [[[? ?] ?] ?]. reflexivity.
  - destruct (ahrs_feedback _ gx gy gz ax ay az mx my mz) as [[[? ?] ?] ?].
    reflexivity.
Qed.

(** C4 (amended).  Mode selection and what each mode corrects with.  A call
    whose magnetometer arguments all compare [===] to 0.0 runs the 6-axis
    function [mahonyAHRSupdateIMU] on the state with the merged timestep and
    returns its result; with an accelerometer reading, that is the feedback,
    integration and normalisation on the accelerometer's error alone.  A call
    with a magnetometer argument that does not compare [===] to 0.0 runs the
    9-axis body; with an accelerometer reading, that is the same on the sum
    of the accelerometer's error and the magnetic-field correction; with the
    accelerometer arguments all zero it is the integration and normalisation
    of the rates as they came, and the magnetometer is not used.  This holds
    from every state: the choice reads the arguments of the call and nothing
    stored. *)
Theorem mode_selection_and_correction
    (s : state num) (gx gy gz ax ay az mx my mz : num) (dt : option num) :
  let s1 := set_recipSampleFreq s (bit_or dt (recipSampleFreq s)) in
  let s' := update s gx gy gz ax ay az mx my mz dt in
  ((mx === lit_0) = true /\ (my === lit_0) = true /\ (mz === lit_0) = true ->
     s' = mahonyAHRSupdateIMU s1 gx gy gz ax ay az /\
     (all_zero ax ay az = false ->
        s' = correct_and_integrate s1 gx gy gz (gravity_error s1 ax ay az)))
  /\
  ((mx === lit_0) = false \/ (my === lit_0) = false \/ (mz === lit_0) = false ->
     s' = ahrs_body s1 gx gy gz ax ay az mx my mz /\
     (all_zero ax ay az = false ->
        s' = correct_and_integrate s1 gx gy gz
               (error_sum (gravity_error s1 ax ay az)
                          (magnetic_error s1 mx my mz))) /\
     (all_zero ax ay az = true ->
        s' = normalise (integrate_rate s1 gx gy gz))).
Proof.
  intros s1 s'. split.
  - intros (Hx & Hy & Hz).
    assert (Hs' : s' = mahonyAHRSupdateIMU s1 gx gy gz ax ay az).
    { unfold s', update, mahonyAHRSupdate, all_zero. fold s1.
      rewrite Hx, Hy, Hz. reflexivity. }
    split; [exact Hs' |]. intros Ha. rewrite Hs'.
    unfold mahonyAHRSupdateIMU. rewrite Ha. cbn [negb].
    apply imu_feedback_error.
  - intros Hm.
    assert (Hs' : s' = ahrs_body s1 gx gy gz ax ay az mx my mz).
    { unfold s', update, mahonyAHRSupdate, all_zero. fold s1.
      destruct Hm as [H | [H | H]]; rewrite H;
        rewrite ?andb_false_r, ?andb_false_l; reflexivity. }
    split; [exact Hs' |]. split; intros Ha; rewrite Hs';
      unfold ahrs_body; rewrite Ha; cbn [negb].
    + apply ahrs_feedback_error.
    + reflexivity.
Qed.

(** C5.  Zero accelerometer: when the accelerometer arguments all compare
    [===] to 0.0, in the 6-axis and in the 9-axis variant alike, the call is
    the integration of the unmodified gyro rates followed by the
    normalisation, on the state with the merged timestep; the integral terms
    are the ones before the call; the result is an ordinary state (the
    function has no other outcome). *)
Theorem zero_accelerometer_skips_correction
    (s : state num) (gx gy gz ax ay az mx my mz : num) (dt : option num) :
  (ax === lit_0) = true -> (ay === lit_0) = true -> (az === lit_0) = true ->
  let s1 := set_recipSampleFreq s (bit_or dt (recipSampleFreq s)) in
  let s' := update s gx gy gz ax ay az mx my mz dt in
  s' = normalise (integrate_rate s1 gx gy gz) /\
  mahonyAHRSupdateIMU s1 gx gy gz ax ay az
    = normalise (integrate_rate s1 gx gy gz) /\
  ahrs_body s1 gx gy gz ax ay az mx my mz
    = normalise (integrate_rate s1 gx gy gz) /\
  integralFBx s' = integralFBx s /\
  integralFBy s' = integralFBy s /\
  integralFBz s' = integralFBz s.
Proof.
  intros Hx Hy Hz s1 s'.
  assert (Ha : all_zero ax ay az = true)
    by (unfold all_zero; rewrite Hx, Hy, Hz; reflexivity).
  assert (Himu : mahonyAHRSupdateIMU s1 gx gy gz ax ay az
                 = normalise (integrate_rate s1 gx gy gz))
    by (unfold mahonyAHRSupdateIMU; rewrite Ha; reflexivity).
  assert (Hahrs : ahrs_body s1 gx gy gz ax ay az mx my mz
                  = normalise (integrate_rate s1 gx gy gz))
    by (unfold ahrs_body; rewrite Ha; reflexivity).
  assert (Hs' : s' = normalise (integrate_rate s1 gx gy gz)).
  { unfold s', update, mahonyAHRSupdate. fold s1.
    destruct (all_zero mx my mz); assumption. }
  rewrite Hs'. repeat split; assumption.
Qed.

(** C8.  Anti-windup: from a state whose integral gain is not positive and
    whose integral terms are 0.0 (as they are at construction), after every
    call of every run of [update] calls the integral terms are 0.0 and the
    gain is what it was, whatever the samples and hence the errors. *)
Theorem anti_windup_zero_gain (s : state num) (cs : list (sample num)) :
  (twoKi s >? lit_0) = false ->
  integralFBx s = lit_0 -> integralFBy s = lit_0 -> integralFBz s = lit_0 ->
  forall k : nat,
    let s' := run_updates s (firstn k cs) in
    integralFBx s' = lit_0 /\ integralFBy s' = lit_0 /\ integralFBz s' = lit_0 /\
    twoKi s' = twoKi s.
Proof.
  intros Hki Hx Hy Hz k. cbn zeta.
  generalize (firstn k cs). clear k cs. intros cs.
  revert s Hki Hx Hy Hz.
  induction cs as [| c cs IH]; intros s Hki Hx Hy Hz.
  - cbn. auto.
  - cbn [run_updates fold_left].
    destruct (update_zero_gain s c Hki Hx Hy Hz) as (Hx' & Hy' & Hz').
    destruct (update_gains s c) as (_ & Hg).
    assert (Hki' : (twoKi (update_with s c) >? lit_0) = false)
      by (rewrite Hg; exact Hki).
    destruct (IH (update_with s c) Hki' Hx' Hy' Hz') as (A & B & C & D).
    unfold run_updates in *. rewrite D, Hg. auto.
Qed.

End ControlFlow.

(* ================================================================== *)
(** ** Facts of binary64 arithmetic the filter relies on *)

Module B64Facts.
Import B64.
Local Open Scope Z_scope.

Lemma eqb_pzero_is_zero (a : float) : eqb a pzero = is_zero a.
Proof. destruct a as [s | s | | s m e]; try destruct s; reflexivity. Qed.

Lemma is_zero_finite (a : float) : is_zero a = true -> is_finite a = true.
Proof. destruct a; simpl; congruence. Qed.

(** A finite number times a zero is a zero. *)
Lemma mul_finite_zero (a b : float) :
  is_finite a = true -> is_zero b = true -> is_zero (mul a b) = true.
Proof.
  destruct a as [sa | sa | | sa ma ea]; destruct b as [sb | sb | | sb mb eb];
    simpl; congruence.
Qed.

Lemma mul_zero_finite (a b : float) :
  is_zero a = true -> is_finite b = true -> is_zero (mul a b) = true.
Proof.
  destruct a as [sa | sa | | sa ma ea]; destruct b as [sb | sb | | sb mb eb];
    simpl; congruence.
Qed.

(** Dividing by +0 never gives a finite number. *)
Lemma div_pzero_not_finite (a : float) : is_finite (div a pzero) = false.
Proof. destruct a as [s | s | | s m e]; reflexivity. Qed.

Lemma digits2_pos_iter_xO (p k : positive) :
  digits2_pos (Pos.iter xO p k) = (digits2_pos p + k)%positive.
Proof.
  induction k as [| k IH] using Pos.peano_ind.
  - simpl. lia.
  - rewrite Pos.iter_succ. simpl. rewrite IH. lia.
Qed.

Lemma Zpos_iter_xO (p k : positive) :
  Zpos (Pos.iter xO p k) = Zpos p * 2 ^ Zpos k.
Proof.
  induction k as [| k IH] using Pos.peano_ind.
  - simpl. lia.
  - rewrite Pos.iter_succ, Pos2Z.inj_xO, IH, Pos2Z.inj_succ, Z.pow_succ_r by lia. ring.
Qed.

Lemma digits2_pos_bounds (p : positive) :
  2 ^ (Zpos (digits2_pos p) - 1) <= Zpos p < 2 ^ Zpos (digits2_pos p).
Proof.
  induction p as [p IH | p IH |]; cbn [digits2_pos].
  - rewrite Pos2Z.inj_succ, Z.pow_succ_r by lia.
    replace (Z.succ (Zpos (digits2_pos p)) - 1) with (Z.succ (Zpos (digits2_pos p) - 1)) by lia.
    rewrite Z.pow_succ_r by lia. lia.
  - rewrite Pos2Z.inj_succ, Z.pow_succ_r by lia.
    replace (Z.succ (Zpos (digits2_pos p)) - 1) with (Z.succ (Zpos (digits2_pos p) - 1)) by lia.
    rewrite Z.pow_succ_r by lia. lia.
  - simpl. lia.
Qed.

Lemma shr_fexp_normal (m : positive) (e : Z) :
  digits2_pos m = 53%positive -> -1074 <= e ->
  shr_fexp prec emax (Zpos m) e loc_Exact
  = ({| shr_m := Zpos m; shr_r := false; shr_s := false |}, e).
Proof.
  intros Hd He. unfold shr_fexp, Zdigits2. rewrite Hd.
  unfold fexp, SpecFloat.emin, prec, emax.
  replace (Z.max (53 + e - 53) (3 - 1024 - 53) - e) with 0 by lia.
  reflexivity.
Qed.

Lemma round_exact (s : bool) (m : positive) (e : Z) :
  digits2_pos m = 53%positive -> -1074 <= e <= 971 ->
  binary_round_aux prec emax s (Zpos m) e loc_Exact = S754_finite s m e.
Proof.
  intros Hd He. unfold binary_round_aux.
  rewrite (shr_fexp_normal m Hd) by lia. cbn [shr_m loc_of_shr_record round_nearest_even].
  rewrite (shr_fexp_normal m Hd) by lia. cbn [shr_m].
  replace (e <=? emax - prec) with true; [reflexivity |].
  symmetry. apply Z.leb_le. unfold emax, prec. lia.
Qed.

Lemma binary_round_small (s : bool) (p : positive) :
  Zpos (digits2_pos p) < 53 ->
  binary_round prec emax s p 0
  = S754_finite s (shift_to_53 p) (Zpos (digits2_pos p) - 53).
Proof.
  intros Hd. unfold binary_round, shl_align.
  set (d := Zpos (digits2_pos p)) in *.
  assert (Hf : fexp prec emax (d + 0) = d - 53)
    by (unfold fexp, SpecFloat.emin, prec, emax; lia).
  rewrite Hf, Z.sub_0_r.
  destruct (d - 53) as [| q | q] eqn:Hq; try lia.
  assert (Hk : Z.to_pos (53 - d) = q) by (replace (53 - d) with (Zpos q) by lia; reflexivity).
  unfold shift_to_53. fold d. rewrite Hk.
  apply round_exact.
  - rewrite digits2_pos_iter_xO. unfold d in Hq. lia.
  - unfold d in *. lia.
Qed.

Lemma of_Z_pos (p : positive) :
  Zpos (digits2_pos p) < 53 ->
  of_Z (Zpos p) = S754_finite false (shift_to_53 p) (Zpos (digits2_pos p) - 53).
Proof. apply binary_round_small. Qed.

Lemma of_Z_neg (p : positive) :
  Zpos (digits2_pos p) < 53 ->
  of_Z (Zneg p) = S754_finite true (shift_to_53 p) (Zpos (digits2_pos p) - 53).
Proof. apply binary_round_small. Qed.

Lemma digits2_pos_shift_to_53 (p : positive) :
  Zpos (digits2_pos p) < 53 -> digits2_pos (shift_to_53 p) = 53%positive.
Proof.
  intros Hd. unfold shift_to_53. rewrite digits2_pos_iter_xO.
  destruct (53 - Zpos (digits2_pos p)) as [| q | q] eqn:Hq; lia.
Qed.

Lemma digits2_pos_le (p : positive) (n : Z) :
  Zpos p < 2 ^ n -> 0 <= n -> Zpos (digits2_pos p) <= n.
Proof.
  intros Hp Hn. pose proof (digits2_pos_bounds p) as [Hlo _].
  destruct (Z_le_gt_dec (Zpos (digits2_pos p)) n) as [| Hgt]; [assumption |].
  exfalso.
  assert (2 ^ n <= 2 ^ (Zpos (digits2_pos p) - 1)) by (apply Z.pow_le_mono_r; lia).
  lia.
Qed.

(** Shape of the Numbers that hold an integer of at most 52 bits. *)
Lemma of_Z_shape (n : Z) :
  - 2 ^ 52 < n < 2 ^ 52 ->
  n = 0 /\ of_Z n = pzero \/
  exists s m e, of_Z n = S754_finite s m e /\
    digits2_pos m = 53%positive /\ -52 <= e <= -1.
Proof.
  intros Hn. destruct n as [| p | p].
  - left. split; reflexivity.
  - right. assert (Hd : Zpos (digits2_pos p) <= 52) by (apply digits2_pos_le; lia).
    exists false, (shift_to_53 p), (Zpos (digits2_pos p) - 53).
    rewrite of_Z_pos by lia. split; [reflexivity |].
    split; [apply digits2_pos_shift_to_53; lia | lia].
  - right. assert (Hd : Zpos (digits2_pos p) <= 52) by (apply digits2_pos_le; lia).
    exists true, (shift_to_53 p), (Zpos (digits2_pos p) - 53).
    rewrite of_Z_neg by lia. split; [reflexivity |].
    split; [apply digits2_pos_shift_to_53; lia | lia].
Qed.

Lemma truncate_of_Z (n : Z) : - 2 ^ 52 < n < 2 ^ 52 -> truncate (of_Z n) = n.
Proof.
  intros Hn.
  assert (Hp : forall p s, Zpos p < 2 ^ 52 ->
            truncate (S754_finite s (shift_to_53 p) (Zpos (digits2_pos p) - 53))
            = if s then Zneg p else Zpos p).
  { intros p s Hlt.
    assert (Hd : Zpos (digits2_pos p) <= 52) by (apply digits2_pos_le; lia).
    unfold truncate.
    replace (0 <=? Zpos (digits2_pos p) - 53) with false
      by (symmetry; apply Z.leb_gt; lia).
    unfold shift_to_53. rewrite Zpos_iter_xO.
    rewrite Z2Pos.id by lia.
    replace (- (Zpos (digits2_pos p) - 53)) with (53 - Zpos (digits2_pos p)) by lia.
    rewrite Z.div_mul by (apply Z.pow_nonzero; lia).
    destruct s; reflexivity. }
  destruct n as [| p | p].
  - reflexivity.
  - assert (Hd : Zpos (digits2_pos p) <= 52) by (apply digits2_pos_le; lia).
    rewrite of_Z_pos by lia. apply Hp. lia.
  - assert (Hd : Zpos (digits2_pos p) <= 52) by (apply digits2_pos_le; lia).
    rewrite of_Z_neg by lia. apply (Hp p true). lia.
Qed.

Lemma iter_pos_iter {A : Type} (f : A -> A) (n : positive) (a : A) :
  SpecFloat.iter_pos f n a = Pos.iter f a n.
Proof.
  revert a. induction n as [n IH | n IH |]; intros a;
    cbn [SpecFloat.iter_pos Pos.iter].
  - rewrite !IH, <- !Pos.iter_swap. reflexivity.
  - rewrite !IH. reflexivity.
  - reflexivity.
Qed.

Lemma shr_iter_xO (m k : positive) :
  SpecFloat.iter_pos shr_1 k {| shr_m := Zpos (Pos.iter xO m k); shr_r := false; shr_s := false |}
  = {| shr_m := Zpos m; shr_r := false; shr_s := false |}.
Proof.
  rewrite iter_pos_iter.
  induction k as [| k IH] using Pos.peano_ind.
  - reflexivity.
  - rewrite Pos.iter_succ_r, Pos.iter_succ. cbn [shr_1 orb]. exact IH.
Qed.

(** Rounding a 53-digit mantissa followed by [k] zero bits is exact. *)
Lemma round_shifted (s : bool) (m k : positive) (e : Z) :
  digits2_pos m = 53%positive -> -1074 <= e + Zpos k <= 971 ->
  binary_round_aux prec emax s (Zpos (Pos.iter xO m k)) e loc_Exact
  = S754_finite s m (e + Zpos k).
Proof.
  intros Hd He. unfold binary_round_aux.
  assert (H1 : shr_fexp prec emax (Zpos (Pos.iter xO m k)) e loc_Exact
               = ({| shr_m := Zpos m; shr_r := false; shr_s := false |}, e + Zpos k)).
  { unfold shr_fexp, Zdigits2. rewrite digits2_pos_iter_xO, Hd.
    unfold fexp, SpecFloat.emin, prec, emax.
    replace (Z.max (Zpos (53 + k) + e - 53) (3 - 1024 - 53) - e) with (Zpos k) by lia.
    cbn [shr_record_of_loc shr]. rewrite shr_iter_xO. reflexivity. }
  rewrite H1. cbn [shr_m loc_of_shr_record round_nearest_even].
  rewrite (shr_fexp_normal m Hd) by lia. cbn [shr_m].
  replace (e + Zpos k <=? emax - prec) with true; [reflexivity |].
  symmetry. apply Z.leb_le. unfold emax, prec. lia.
Qed.

(** Halving a normal number above the subnormal range is exact. *)
Lemma mul_half_normal (s : bool) (m : positive) (e : Z) :
  digits2_pos m = 53%positive -> -1073 <= e <= 972 ->
  mul half (S754_finite s m e) = S754_finite s m (e - 1).
Proof.
  intros Hd He. unfold mul, half, SFmul. cbn [xorb].
  change (4503599627370496 * m)%positive with (Pos.iter xO m 52).
  rewrite round_shifted by (assumption || lia).
  f_equal. lia.
Qed.

Lemma wrap32_range (n : Z) : - 2 ^ 31 <= wrap32 n < 2 ^ 31.
Proof.
  unfold wrap32. pose proof (Z.mod_pos_bound n (2 ^ 32) ltac:(lia)).
  destruct (n mod 2 ^ 32 <? 2 ^ 31) eqn:E;
    [apply Z.ltb_lt in E | apply Z.ltb_ge in E]; lia.
Qed.

Lemma wrap32_small (n : Z) : - 2 ^ 31 <= n < 2 ^ 31 -> wrap32 n = n.
Proof.
  intros Hn. unfold wrap32.
  destruct (Z_lt_dec n 0) as [Hneg | Hpos].
  - replace (n mod 2 ^ 32) with (n + 2 ^ 32)
      by (apply Z.mod_unique with (q := -1); lia).
    replace (n + 2 ^ 32 <? 2 ^ 31) with false by (symmetry; apply Z.ltb_ge; lia).
    lia.
  - rewrite Z.mod_small by lia.
    replace (n <? 2 ^ 31) with true by (symmetry; apply Z.ltb_lt; lia).
    reflexivity.
Qed.

Lemma ToInt32_of_Z (n : Z) : - 2 ^ 31 <= n < 2 ^ 31 -> ToInt32 (of_Z n) = n.
Proof.
  intros Hn. unfold ToInt32. rewrite truncate_of_Z by lia. apply wrap32_small, Hn.
Qed.

(** The timestep factor [0.5 * (a | b)] is a finite number. *)
Lemma half_bitwise_or_finite (a : option float) (b : float) :
  is_finite (mul half (bitwise_or a b)) = true.
Proof.
  unfold bitwise_or.
  set (n := wrap32 _). pose proof (wrap32_range (Z.lor match a with
                                        | Some a0 => ToInt32 a0
                                        | None => 0
                                        end (ToInt32 b))) as Hn. fold n in Hn.
  destruct (@of_Z_shape n) as [[_ H0] | (s & m & e & Hs & Hd & He)]; [lia | |].
  - rewrite H0. reflexivity.
  - rewrite Hs, mul_half_normal by (assumption || lia). reflexivity.
Qed.


Lemma valid_mantissa_bound (m : positive) (e : Z) :
  valid (S754_finite false m e) = true -> Zpos m < 2 ^ 53.
Proof.
  unfold valid, valid_binary, bounded, canonical_mantissa.
  intros H. apply andb_prop in H. destruct H as [H _].
  apply Z.eqb_eq in H. unfold fexp, SpecFloat.emin, prec, emax in H.
  pose proof (digits2_pos_bounds m) as [_ Hhi].
  assert (Zpos (digits2_pos m) <= 53) by lia.
  assert (2 ^ Zpos (digits2_pos m) <= 2 ^ 53) by (apply Z.pow_le_mono_r; lia).
  lia.
Qed.

Lemma truncate_unit_interval (a : float) :
  valid a = true -> in_unit_interval a = true -> truncate a = 0.
Proof.
  intros Hv Hu. apply andb_prop in Hu. destruct Hu as [Hle Hlt].
  destruct a as [s | s | | s m e]; try reflexivity.
  destruct s; [discriminate Hle |].
  pose proof (valid_mantissa_bound _ _ Hv) as Hm.
  unfold ltb, SFltb, one, SFcompare in Hlt.
  unfold truncate.
  destruct (Z.compare_spec e (-52)) as [He | He | He]; try discriminate Hlt.
  - subst e. cbn [Z.leb Z.compare Z.opp].
    destruct (Pos.compare_cont Eq m 4503599627370496) eqn:Hc; try discriminate Hlt.
    assert (Hm' : Zpos m < 4503599627370496) by (apply Pos2Z.pos_lt_pos; exact Hc).
    apply Z.div_small. clear - Hm'. lia.
  - clear Hle Hv Hlt.
    replace (0 <=? e) with false by (symmetry; apply Z.leb_gt; lia).
    apply Z.div_small. split; [lia |].
    assert (2 ^ 53 <= 2 ^ (- e)) by (apply Z.pow_le_mono_r; lia). lia.
Qed.

Lemma ToInt32_unit_interval (a : float) :
  valid a = true -> in_unit_interval a = true -> ToInt32 a = 0.
Proof.
  intros Hv Hu. unfold ToInt32. rewrite truncate_unit_interval by assumption.
  reflexivity.
Qed.

Lemma eqb_refl_finite (a : float) : is_finite a = true -> eqb a a = true.
Proof.
  destruct a as [s | s | | s m e]; try discriminate; intros _.
  - reflexivity.
  - unfold eqb, SFeqb, SFcompare.
    rewrite Z.compare_refl, Pos.compare_cont_refl. destruct s; reflexivity.
Qed.

(** Adding or subtracting a zero does not change a finite number, up to the
    sign of a zero. *)
Lemma add_zero_eqb (a b : float) :
  is_finite a = true -> is_zero b = true -> eqb (add a b) a = true.
Proof.
  intros Ha Hb.
  destruct b as [sb | | |]; try discriminate.
  destruct a as [sa | sa | | sa m e]; try discriminate.
  - destruct sa, sb; reflexivity.
  - change (add (S754_finite sa m e) (S754_zero sb)) with (S754_finite sa m e).
    apply eqb_refl_finite. reflexivity.
Qed.

Lemma sub_zeros (a b : float) :
  is_zero a = true -> is_zero b = true -> is_zero (sub a b) = true.
Proof.
  destruct a as [sa | | |]; try discriminate.
  destruct b as [sb | | |]; try discriminate.
  destruct sa, sb; reflexivity.
Qed.

Lemma add_zeros (a b : float) :
  is_zero a = true -> is_zero b = true -> is_zero (add a b) = true.
Proof.
  destruct a as [sa | | |]; try discriminate.
  destruct b as [sb | | |]; try discriminate.
  destruct sa, sb; reflexivity.
Qed.

Lemma opp_finite (a : float) : is_finite (opp a) = is_finite a.
Proof. destruct a; reflexivity. Qed.

Lemma opp_finite_true (a : float) : is_finite a = true -> is_finite (opp a) = true.
Proof. rewrite opp_finite. trivial. Qed.

(** Zeros stay zeros through the sums and products of the integration. *)
Create HintDb zeros discriminated.
#[export] Hint Resolve mul_finite_zero mul_zero_finite add_zeros sub_zeros
  is_zero_finite opp_finite_true : zeros.

End B64Facts.

(* ================================================================== *)
(** ** Rounding to nearest at binary64, and its error in the reals *)

Module Rounding.
Import B64 B64Facts.
Local Open Scope Z_scope.

Lemma shr_1_m (r : shr_record) :
  0 <= shr_m r -> shr_m (shr_1 r) = shr_m r / 2 /\ 0 <= shr_m (shr_1 r).
Proof.
  destruct r as [m b c]. cbn [shr_m]. intros Hm.
  destruct m as [| [p | p |] |]; cbn [shr_1 shr_m]; try lia;
    (split; [| lia]); Z.to_euclidean_division_equations; lia.
Qed.

Lemma iter_shr_m (k : positive) (r : shr_record) :
  0 <= shr_m r ->
  shr_m (SpecFloat.iter_pos shr_1 k r) = shr_m r / 2 ^ Zpos k.
Proof.
  intros Hm. rewrite iter_pos_iter.
  assert (H : shr_m (Pos.iter shr_1 r k) = shr_m r / 2 ^ Zpos k /\
              0 <= shr_m (Pos.iter shr_1 r k)).
  { induction k as [| k IH] using Pos.peano_ind.
    - cbn [Pos.iter]. change (2 ^ 1) with 2. apply shr_1_m, Hm.
    - rewrite Pos.iter_succ. destruct IH as [IH1 IH2].
      destruct (shr_1_m _ IH2) as [H1 H2]. split; [| exact H2].
      rewrite H1, IH1, Pos2Z.inj_succ, Z.pow_succ_r by lia.
      rewrite Z.div_div by lia. f_equal. lia. }
  apply H.
Qed.

Lemma round_nearest_even_range (m : Z) (l : location) :
  m <= round_nearest_even m l <= m + 1.
Proof.
  destruct l as [| [| |]]; cbn [round_nearest_even]; try lia.
  destruct (Z.even m); lia.
Qed.

Lemma shr_fexp_unfold (m e : Z) :
  shr_fexp prec emax m e loc_Exact
  = shr {| shr_m := m; shr_r := false; shr_s := false |} e
        (Z.max (Zdigits2 m + e - 53) (-1074) - e).
Proof. reflexivity. Qed.

(** The second normalisation of [binary_round_aux]: nothing to do, except
    after a carry into the 54th digit. *)
Lemma renormalise (m1 e1 : Z) :
  0 <= m1 <= 2 ^ 53 -> -1074 <= e1 ->
  shr_fexp prec emax m1 e1 loc_Exact
  = if m1 =? 2 ^ 53
    then ({| shr_m := 2 ^ 52; shr_r := false; shr_s := false |}, e1 + 1)
    else ({| shr_m := m1; shr_r := false; shr_s := false |}, e1).
Proof.
  intros Hm He. rewrite shr_fexp_unfold.
  destruct (Z.eqb_spec m1 (2 ^ 53)) as [-> | Hne].
  - change (Zdigits2 (2 ^ 53)) with 54.
    replace (Z.max (54 + e1 - 53) (-1074) - e1) with 1 by lia.
    reflexivity.
  - destruct m1 as [| p |]; [| | lia].
    + cbn [Zdigits2].
      destruct (Z.max (0 + e1 - 53) (-1074) - e1) eqn:E;
        try reflexivity; lia.
    + cbn [Zdigits2].
      assert (Hd : Zpos (digits2_pos p) <= 53) by (apply digits2_pos_le; lia).
      destruct (Z.max (Zpos (digits2_pos p) + e1 - 53) (-1074) - e1) eqn:E;
        try reflexivity; lia.
Qed.

Lemma no_shift_round (s : bool) (m : positive) (e : Z) :
  Z.max (Zpos (digits2_pos m) + e - 53) (-1074) - e <= 0 ->
  binary_round_aux prec emax s (Zpos m) e loc_Exact
  = if e <=? 971 then S754_finite s m e else S754_infinity s.
Proof.
  intros Hn. unfold binary_round_aux.
  assert (H1 : shr_fexp prec emax (Zpos m) e loc_Exact
               = ({| shr_m := Zpos m; shr_r := false; shr_s := false |}, e)).
  { rewrite shr_fexp_unfold. cbn [Zdigits2].
    destruct (Z.max (Zpos (digits2_pos m) + e - 53) (-1074) - e);
      try reflexivity; lia. }
  rewrite H1. cbn [shr_m loc_of_shr_record round_nearest_even].
  rewrite H1. reflexivity.
Qed.

(** What rounding to nearest does to the integer [m] at exponent [e], in
    units of 2^e: the result is within [D] of [m], where [D] is at most
    2^-52 of [m] or the last place of the subnormal range. *)
Lemma binary_round_aux_spec (s : bool) (m : positive) (e : Z) :
  let res := binary_round_aux prec emax s (Zpos m) e loc_Exact in
  (res = S754_infinity s /\ 972 <= Zpos (digits2_pos m) - 1 + e) \/
  exists m1 e1 D : Z,
    res = match m1 with Zpos p => S754_finite s p e1 | _ => S754_zero s end /\
    0 <= m1 /\ e <= e1 /\
    Z.abs (m1 * 2 ^ (e1 - e) - Zpos m) <= D /\
    (D * 2 ^ 52 <= Zpos m \/ (e <= -1074 /\ D = 2 ^ (-1074 - e))).
Proof.
  cbv zeta.
  set (d := Zpos (digits2_pos m)).
  pose proof (digits2_pos_bounds m) as [Hlo Hhi]. fold d in Hlo, Hhi.
  assert (Hd : 1 <= d) by (unfold d; lia).
  destruct (Z.max (d + e - 53) (-1074) - e) as [| k | k] eqn:Ek.
  1, 3: rewrite no_shift_round by (fold d; lia);
    (destruct (Z.leb_spec e 971); [right | left; split; [reflexivity | lia]]);
    exists (Zpos m), e, 0; rewrite Z.sub_diag; repeat split; lia.
  (* a shift by k *)
  unfold binary_round_aux. rewrite shr_fexp_unfold. cbn [Zdigits2]. fold d.
  rewrite Ek. cbn [shr].
  set (r1 := SpecFloat.iter_pos shr_1 k _).
  assert (Hm' : shr_m r1 = Zpos m / 2 ^ Zpos k)
    by (apply iter_shr_m; cbn; lia).
  set (e1 := e + Zpos k).
  assert (Hpk : 0 < 2 ^ Zpos k) by (apply Z.pow_pos_nonneg; lia).
  pose proof (Z.div_mod (Zpos m) (2 ^ Zpos k) ltac:(lia)) as Hdm.
  pose proof (Z.mod_pos_bound (Zpos m) (2 ^ Zpos k) Hpk) as Hmod.
  assert (Hq0 : 0 <= Zpos m / 2 ^ Zpos k) by (apply Z.div_pos; lia).
  assert (Hq53 : Zpos m / 2 ^ Zpos k < 2 ^ 53).
  { apply Z.div_lt_upper_bound; [lia |].
    rewrite <- Z.pow_add_r by lia.
    assert (2 ^ d <= 2 ^ (Zpos k + 53)) by (apply Z.pow_le_mono_r; lia).
    lia. }
  pose proof (round_nearest_even_range (shr_m r1) (loc_of_shr_record r1)) as Hr.
  set (m1 := round_nearest_even (shr_m r1) (loc_of_shr_record r1)) in *.
  rewrite Hm' in Hr.
  rewrite (@renormalise m1 e1) by (unfold e1; lia).
  assert (HD : 2 ^ Zpos k * 2 ^ 52 <= Zpos m \/
               (e <= -1074 /\ 2 ^ Zpos k = 2 ^ (-1074 - e))).
  { destruct (Z_le_gt_dec (-1074) (d + e - 53)) as [Hn | Hs].
    - left. rewrite <- Z.pow_add_r by lia.
      replace (Zpos k + 52) with (d - 1) by lia. exact Hlo.
    - right. split; [lia |]. f_equal. lia. }
  assert (Herr : Z.abs (m1 * 2 ^ Zpos k - Zpos m) <= 2 ^ Zpos k).
  { set (P := 2 ^ Zpos k) in *. set (q := Zpos m / P) in *.
    set (rm := Zpos m mod P) in *. clearbody P q rm m1. clear - Hdm Hmod Hr Hpk.
    nia. }
  destruct (Z.eqb_spec m1 (2 ^ 53)) as [Hc | Hc].
  - cbn [shr_m]. change (2 ^ 52) with (Zpos (2 ^ 52)).
    cbv iota.
    destruct (Z.leb_spec (e1 + 1) (emax - prec)) as [Hov | Hov];
      [right | left; split; [reflexivity | unfold e1, emax, prec in Hov; lia]].
    exists (2 ^ 52), (e1 + 1), (2 ^ Zpos k).
    split; [reflexivity |]. split; [lia |]. split; [unfold e1; lia |].
    split; [| exact HD].
    replace (e1 + 1 - e) with (Zpos k + 1) by (unfold e1; lia).
    rewrite Z.pow_add_r by lia. rewrite Hc in Herr. lia.
  - cbn [shr_m].
    destruct m1 as [| p1 |] eqn:Em1; [| | lia].
    + right. exists 0, e1, (2 ^ Zpos k).
      split; [reflexivity |]. split; [lia |]. split; [unfold e1; lia |].
      split; [| exact HD].
      replace (e1 - e) with (Zpos k) by (unfold e1; lia). exact Herr.
    + destruct (Z.leb_spec e1 (emax - prec)) as [Hov | Hov];
        [right | left; split; [reflexivity | unfold e1, emax, prec in Hov; lia]].
      exists (Zpos p1), e1, (2 ^ Zpos k).
      split; [reflexivity |]. split; [lia |]. split; [unfold e1; lia |].
      split; [| exact HD].
      replace (e1 - e) with (Zpos k) by (unfold e1; lia). exact Herr.
Qed.

End Rounding.

Module RoundingError.
Import B64 B64Facts Rounding Measure.
Local Open Scope R_scope.

Lemma pow2_pos (e : Z) : 0 < pow2 e.
Proof. apply powerRZ_lt. lra. Qed.

Lemma pow2_add (a b : Z) : pow2 (a + b) = pow2 a * pow2 b.
Proof. apply powerRZ_add. lra. Qed.

Lemma pow2_IZR (k : Z) : (0 <= k)%Z -> pow2 k = IZR (2 ^ k).
Proof.
  intros Hk. destruct k as [| p | p]; [reflexivity | | lia].
  unfold pow2. symmetry. apply (Zpower_pos_powerRZ 2 p).
Qed.

Lemma pow2_neg_52 : pow2 (-52) * IZR (2 ^ 52) = 1.
Proof.
  rewrite <- (@pow2_IZR 52) by lia. rewrite <- pow2_add. reflexivity.
Qed.

(** Rounding to nearest at binary64, measured in the reals: the error is at
    most 2^-52 of the exact value, or 2^-1074 in the subnormal range. *)
Lemma round_error (s : bool) (m : positive) (e : Z) :
  let res := binary_round_aux prec emax s (Zpos m) e loc_Exact in
  is_finite res = true ->
  exists v : R,
    to_R res = (if s then - v else v) /\ 0 <= v /\
    Rabs (v - IZR (Zpos m) * pow2 e)
    <= pow2 (-52) * (IZR (Zpos m) * pow2 e) + pow2 (-1074).
Proof.
  intros res Hfin.
  destruct (binary_round_aux_spec s m e)
    as [[Hinf _] | (m1 & e1 & D & Hres & Hm1 & He & Herr & HD)];
    fold res in Hinf || fold res in Hres.
  - rewrite Hinf in Hfin. discriminate.
  - exists (IZR m1 * pow2 e1).
    pose proof (pow2_pos e) as Pe. pose proof (pow2_pos e1) as Pe1.
    pose proof (pow2_pos (-1074)) as Peta.
    assert (HX : 0 < IZR (Zpos m) * pow2 e).
    { apply Rmult_lt_0_compat; [apply IZR_lt; lia | exact Pe]. }
    split; [| split].
    + rewrite Hres. destruct m1 as [| p |]; [| | lia]; cbn [to_R].
      * destruct s; lra.
      * destruct s; lra.
    + apply Rmult_le_pos; [apply IZR_le; lia | lra].
    + assert (Hv : IZR m1 * pow2 e1 - IZR (Zpos m) * pow2 e
                   = IZR (m1 * 2 ^ (e1 - e) - Zpos m) * pow2 e).
      { replace e1 with ((e1 - e) + e)%Z at 1 by lia.
        rewrite pow2_add, (@pow2_IZR (e1 - e)) by lia.
        rewrite minus_IZR, mult_IZR. ring. }
      rewrite Hv, Rabs_mult, (Rabs_right (pow2 e)) by lra.
      rewrite <- abs_IZR.
      assert (HDr : IZR (Z.abs (m1 * 2 ^ (e1 - e) - Zpos m)) <= IZR D)
        by (apply IZR_le; exact Herr).
      assert (Hstep : IZR (Z.abs (m1 * 2 ^ (e1 - e) - Zpos m)) * pow2 e
                      <= IZR D * pow2 e)
        by (apply Rmult_le_compat_r; lra).
      destruct HD as [HD | [HD1 HD2]].
      * assert (HDm : IZR D * IZR (2 ^ 52) <= IZR (Zpos m))
          by (rewrite <- mult_IZR; apply IZR_le; exact HD).
        pose proof pow2_neg_52 as H52. pose proof (pow2_pos (-52)) as P52.
        assert (IZR D * pow2 e <= pow2 (-52) * (IZR (Zpos m) * pow2 e)).
        { replace (IZR D * pow2 e)
            with (pow2 (-52) * (IZR D * IZR (2 ^ 52) * pow2 e))
            by (transitivity (pow2 (-52) * IZR (2 ^ 52) * (IZR D * pow2 e));
                [ring | rewrite H52; ring]).
          apply Rmult_le_compat_l; [lra |].
          apply Rmult_le_compat_r; lra. }
        lra.
      * assert (IZR D * pow2 e = pow2 (-1074)).
        { rewrite HD2, <- pow2_IZR by lia. rewrite <- pow2_add. f_equal. lia. }
        assert (0 <= pow2 (-52) * (IZR (Zpos m) * pow2 e)).
        { apply Rmult_le_pos; [pose proof (pow2_pos (-52)); lra | lra]. }
        lra.
Qed.


Lemma error_bound_nonneg (x : R) : 0 <= pow2 (-52) * Rabs x + pow2 (-1074).
Proof.
  pose proof (pow2_pos (-52)). pose proof (pow2_pos (-1074)).
  pose proof (Rabs_pos x). nra.
Qed.

(** A finite product is the exact product up to one rounding. *)
Lemma mul_error (a b : float) :
  is_finite (mul a b) = true ->
  Rabs (to_R (mul a b) - to_R a * to_R b)
  <= pow2 (-52) * Rabs (to_R a * to_R b) + pow2 (-1074).
Proof.
  intros Hfin.
  destruct a as [sa | sa | | sa ma ea]; destruct b as [sb | sb | | sb mb eb];
    try discriminate Hfin;
    try (cbn [mul SFmul to_R];
         replace (0 - _) with 0 by ring; rewrite Rabs_R0;
         apply error_bound_nonneg).
  unfold mul, SFmul in *.
  destruct (@round_error (xorb sa sb) (ma * mb) (ea + eb) Hfin)
    as (v & Hv & Hv0 & Herr).
  rewrite Hv. cbn [to_R].
  rewrite Pos2Z.inj_mul, mult_IZR, pow2_add in Herr.
  pose proof (pow2_pos ea) as Pa. pose proof (pow2_pos eb) as Pb.
  assert (Ha : 0 < IZR (Zpos ma)) by (apply IZR_lt; lia).
  assert (Hb : 0 < IZR (Zpos mb)) by (apply IZR_lt; lia).
  set (X := IZR (Zpos ma) * IZR (Zpos mb) * (pow2 ea * pow2 eb)) in *.
  assert (HX : 0 < X) by (unfold X; repeat apply Rmult_lt_0_compat; lra).
  assert (Hprod : Rabs ((if sa then - IZR (Zpos ma) else IZR (Zpos ma)) * pow2 ea *
                        ((if sb then - IZR (Zpos mb) else IZR (Zpos mb)) * pow2 eb)) = X).
  { destruct sa, sb;
      match goal with |- Rabs ?t = _ =>
        first [ replace t with X by (unfold X; ring); apply Rabs_right; lra
              | replace t with (- X) by (unfold X; ring);
                rewrite Rabs_Ropp; apply Rabs_right; lra ] end. }
  rewrite Hprod.
  destruct sa, sb; cbn [xorb];
    match goal with |- Rabs ?t <= _ =>
      first [ replace t with (v - X) by (unfold X; ring); exact Herr
            | replace t with (- (v - X)) by (unfold X; ring);
              rewrite Rabs_Ropp; exact Herr ] end.
Qed.

Lemma shl_align_value (m : positive) (e e' : Z) :
  IZR (Zpos (fst (shl_align m e e'))) * pow2 (snd (shl_align m e e'))
  = IZR (Zpos m) * pow2 e.
Proof.
  unfold shl_align. destruct (e' - e)%Z as [| d | d] eqn:Ed; cbn [fst snd];
    try reflexivity.
  rewrite Zpos_iter_xO, mult_IZR, <- (@pow2_IZR (Zpos d)) by lia.
  rewrite Rmult_assoc, <- pow2_add. do 2 f_equal. lia.
Qed.

Lemma shl_align_fst (m : positive) (e e' : Z) :
  (e' <= e)%Z ->
  Zpos (fst (shl_align m e e')) = (Zpos m * 2 ^ (e - e'))%Z.
Proof.
  intros He. unfold shl_align.
  destruct (e' - e)%Z as [| d | d] eqn:Ed; cbn [fst]; try lia.
  - replace (e - e')%Z with 0%Z by lia. lia.
  - rewrite Zpos_iter_xO. do 2 f_equal. lia.
Qed.

Lemma binary_round_error (s : bool) (m : positive) (e : Z) :
  is_finite (binary_round prec emax s m e) = true ->
  exists v : R,
    to_R (binary_round prec emax s m e) = (if s then - v else v) /\ 0 <= v /\
    Rabs (v - IZR (Zpos m) * pow2 e)
    <= pow2 (-52) * (IZR (Zpos m) * pow2 e) + pow2 (-1074).
Proof.
  unfold binary_round.
  pose proof (shl_align_value m e (fexp prec emax (Zpos (digits2_pos m) + e))) as Hval.
  destruct (shl_align m e (fexp prec emax (Zpos (digits2_pos m) + e))) as [mz ez].
  cbn [fst snd] in Hval. intros Hfin.
  destruct (@round_error s mz ez Hfin) as (v & Hv & Hv0 & Herr).
  exists v. rewrite Hval in Herr. auto.
Qed.

Lemma binary_normalize_error (z e : Z) :
  is_finite (binary_normalize prec emax z e false) = true ->
  Rabs (to_R (binary_normalize prec emax z e false) - IZR z * pow2 e)
  <= pow2 (-52) * Rabs (IZR z * pow2 e) + pow2 (-1074).
Proof.
  intros Hfin. pose proof (pow2_pos e) as Pe.
  destruct z as [| p | p]; cbn [binary_normalize] in *.
  - cbn [to_R]. replace (0 - 0 * pow2 e) with 0 by ring.
    rewrite Rabs_R0. apply error_bound_nonneg.
  - destruct (@binary_round_error false p e Hfin) as (v & Hv & Hv0 & Herr).
    rewrite Hv. rewrite (Rabs_right (IZR (Zpos p) * pow2 e)); [exact Herr |].
    apply Rle_ge, Rmult_le_pos; [apply IZR_le; lia | lra].
  - destruct (@binary_round_error true p e Hfin) as (v & Hv & Hv0 & Herr).
    rewrite Hv.
    change (Zneg p) with (- Zpos p)%Z. rewrite opp_IZR.
    replace (- IZR (Zpos p) * pow2 e) with (- (IZR (Zpos p) * pow2 e)) by ring.
    rewrite Rabs_Ropp.
    rewrite (Rabs_right (IZR (Zpos p) * pow2 e)).
    + replace (- v - - (IZR (Zpos p) * pow2 e))
        with (- (v - IZR (Zpos p) * pow2 e)) by ring.
      rewrite Rabs_Ropp. exact Herr.
    + apply Rle_ge, Rmult_le_pos; [apply IZR_le; lia | lra].
Qed.

Lemma to_R_aligned (s : bool) (m : positive) (e e' : Z) :
  (e' <= e)%Z ->
  IZR (cond_Zopp s (Zpos (fst (shl_align m e e')))) * pow2 e'
  = to_R (S754_finite s m e).
Proof.
  intros He. rewrite shl_align_fst by exact He. cbn [to_R].
  replace e with ((e - e') + e')%Z at 2 by lia.
  rewrite pow2_add, (@pow2_IZR (e - e')) by lia.
  destruct s; cbn [cond_Zopp]; rewrite ?opp_IZR, mult_IZR; ring.
Qed.

(** A finite sum is the exact sum up to one rounding. *)
Lemma add_error (a b : float) :
  is_finite (add a b) = true ->
  Rabs (to_R (add a b) - (to_R a + to_R b))
  <= pow2 (-52) * Rabs (to_R a + to_R b) + pow2 (-1074).
Proof.
  intros Hfin.
  assert (Hexact : forall x y : R, x = y ->
            Rabs (x - y) <= pow2 (-52) * Rabs y + pow2 (-1074)).
  { intros x y ->. replace (y - y) with 0 by ring. rewrite Rabs_R0.
    apply error_bound_nonneg. }
  destruct a as [sa | sa | | sa ma ea]; destruct b as [sb | sb | | sb mb eb];
    try discriminate Hfin;
    try (destruct sa, sb; discriminate Hfin).
  - apply Hexact. destruct sa, sb; cbn; ring.
  - apply Hexact. cbn [add SFadd to_R]. ring.
  - apply Hexact. cbn [add SFadd to_R]. ring.
  - unfold add, SFadd in *. cbv zeta in *.
    set (ez := Z.min ea eb) in *.
    rewrite <- (@to_R_aligned sa ma ea ez) by (unfold ez; lia).
    rewrite <- (@to_R_aligned sb mb eb ez) by (unfold ez; lia).
    rewrite <- Rmult_plus_distr_r, <- plus_IZR.
    apply binary_normalize_error, Hfin.
Qed.


Lemma pow2_le (a b : Z) : (a <= b)%Z -> pow2 a <= pow2 b.
Proof.
  intros Hab. replace b with (a + (b - a))%Z by lia.
  rewrite pow2_add, (@pow2_IZR (b - a)) by lia.
  pose proof (pow2_pos a) as Pa.
  assert (1 <= IZR (2 ^ (b - a))).
  { apply IZR_le. assert (0 < 2 ^ (b - a))%Z by (apply Z.pow_pos_nonneg; lia). lia. }
  nra.
Qed.

Lemma pow2_inv (k : Z) : (0 <= k)%Z -> pow2 (- k) = / IZR (2 ^ k).
Proof.
  intros Hk. unfold pow2. rewrite powerRZ_neg'. f_equal. apply pow2_IZR, Hk.
Qed.

Lemma pow2_m52 : pow2 (-52) = / 4503599627370496.
Proof. exact (@pow2_inv 52 ltac:(lia)). Qed.

Lemma pow2_m40 : pow2 (-40) = / 1099511627776.
Proof. exact (@pow2_inv 40 ltac:(lia)). Qed.

(** Rounding overflows only from 2^972 on. *)
Lemma round_overflow (s : bool) (m : positive) (e : Z) :
  is_finite (binary_round_aux prec emax s (Zpos m) e loc_Exact) = false ->
  pow2 972 <= IZR (Zpos m) * pow2 e.
Proof.
  intros Hnf.
  destruct (binary_round_aux_spec s m e)
    as [[_ Hbig] | (m1 & e1 & D & Hres & Hm1 & _)].
  - pose proof (digits2_pos_bounds m) as [Hlo _].
    set (d := Zpos (digits2_pos m)) in *.
    assert (Hd : (1 <= d)%Z) by (unfold d; lia).
    apply IZR_le in Hlo. rewrite <- (@pow2_IZR (d - 1)) in Hlo by lia.
    pose proof (pow2_pos e) as Pe.
    pose proof (@pow2_le 972 (d - 1 + e) Hbig) as Hle.
    rewrite pow2_add in Hle.
    apply Rle_trans with (1 := Hle).
    apply Rmult_le_compat_r; lra.
  - cbv zeta in Hres. rewrite Hres in Hnf.
    destruct m1; discriminate Hnf.
Qed.

(** A product of finite numbers is finite unless it is 2^972 or more in
    size. *)
Lemma mul_overflow (a b : float) :
  is_finite a = true -> is_finite b = true ->
  is_finite (mul a b) = false ->
  pow2 972 <= Rabs (to_R a * to_R b).
Proof.
  intros Ha Hb Hnf.
  destruct a as [sa | sa | | sa ma ea]; try discriminate Ha;
    destruct b as [sb | sb | | sb mb eb]; try discriminate Hb;
    try discriminate Hnf.
  unfold mul, SFmul in Hnf.
  pose proof (round_overflow _ _ _ Hnf) as Hbig.
  rewrite Pos2Z.inj_mul, mult_IZR, pow2_add in Hbig.
  pose proof (pow2_pos ea) as Pa. pose proof (pow2_pos eb) as Pb.
  assert (Hma : 0 < IZR (Zpos ma)) by (apply IZR_lt; lia).
  assert (Hmb : 0 < IZR (Zpos mb)) by (apply IZR_lt; lia).
  set (X := IZR (Zpos ma) * IZR (Zpos mb) * (pow2 ea * pow2 eb)) in *.
  assert (HX : 0 < X) by (unfold X; repeat apply Rmult_lt_0_compat; lra).
  cbn [to_R].
  destruct sa, sb;
    match goal with |- _ <= Rabs ?t =>
      first [ replace t with X by (unfold X; ring);
              rewrite Rabs_right by lra; exact Hbig
            | replace t with (- X) by (unfold X; ring);
              rewrite Rabs_Ropp, Rabs_right by lra; exact Hbig ] end.
Qed.

Lemma add_finite_inv (a b : float) :
  is_finite (add a b) = true -> is_finite a = true /\ is_finite b = true.
Proof.
  destruct a as [sa | sa | | sa ma ea]; destruct b as [sb | sb | | sb mb eb];
    try destruct sa; try destruct sb; cbn; intros H; try discriminate H; auto.
Qed.

Lemma to_R_pos_finite (a : float) : 0 < to_R a -> is_finite a = true.
Proof. destruct a; cbn; intros H; try lra; reflexivity. Qed.

Lemma rounds_mul (a b : float) :
  is_finite (mul a b) = true ->
  rounds (pow2 (-1074)) (to_R (mul a b)) (to_R a * to_R b).
Proof.
  intros H. unfold rounds. rewrite <- pow2_m52.
  apply mul_error, H.
Qed.

Lemma rounds_add (a b : float) :
  is_finite (add a b) = true ->
  rounds (pow2 (-1074)) (to_R (add a b)) (to_R a + to_R b).
Proof.
  intros H. unfold rounds. rewrite <- pow2_m52.
  apply add_error, H.
Qed.

End RoundingError.

(* ================================================================== *)
(** ** The error of the normalisation, on real numbers *)

Module RealSide.
Import Measure.
Local Open Scope R_scope.

Lemma Rabs_le_inv (x a : R) : Rabs x <= a -> - a <= x <= a.
Proof. unfold Rabs. destruct (Rcase_abs x); lra. Qed.

Lemma rounds_bounds (eta v x B : R) :
  rounds eta v x -> - B <= x <= B ->
  x - (/ 4503599627370496 * B + eta) <= v <= x + (/ 4503599627370496 * B + eta).
Proof.
  unfold rounds. intros H HB.
  assert (Rabs x <= B) by (apply Rabs_le; exact HB).
  apply Rabs_le_inv in H. lra.
Qed.

Lemma square_bound (x d : R) (c : R) :
  -2 <= x <= 2 -> - c <= d <= c -> 0 <= c <= 1 ->
  - (5 * c) <= (x + d) * (x + d) - x * x <= 5 * c.
Proof. intros Hx Hd Hc. nra. Qed.

(** The exact quaternion scaled by r: its squared norm is within 2^-39 of
    1, so no component exceeds 2 in size. *)
Lemma scaled_components (eta t0 t1 t2 t3 p0 p1 p2 p3 s1 s2 S r : R) :
  0 <= eta -> eta <= / 4503599627370496 * S -> eta <= / 4503599627370496 ->
  rounds eta p0 (t0 * t0) -> rounds eta p1 (t1 * t1) ->
  rounds eta p2 (t2 * t2) -> rounds eta p3 (t3 * t3) ->
  rounds eta s1 (p0 + p1) -> rounds eta s2 (s1 + p2) -> rounds eta S (s2 + p3) ->
  Rabs (r * r * S - 1) <= / 1099511627776 ->
  - / 549755813888
    <= r * r * (t0 * t0 + t1 * t1 + t2 * t2 + t3 * t3) - 1
    <= / 549755813888 /\
  -2 <= t0 * r <= 2 /\ -2 <= t1 * r <= 2 /\
  -2 <= t2 * r <= 2 /\ -2 <= t3 * r <= 2.
Proof.
  intros He HeS Heu Hp0 Hp1 Hp2 Hp3 Hs1 Hs2 HS Hr.
  set (T0 := t0 * t0) in *. set (T1 := t1 * t1) in *.
  set (T2 := t2 * t2) in *. set (T3 := t3 * t3) in *.
  assert (HT0 : 0 <= T0) by (unfold T0; nra).
  assert (HT1 : 0 <= T1) by (unfold T1; nra).
  assert (HT2 : 0 <= T2) by (unfold T2; nra).
  assert (HT3 : 0 <= T3) by (unfold T3; nra).
  pose proof (@rounds_bounds eta p0 T0 T0 Hp0 ltac:(lra)) as B0.
  pose proof (@rounds_bounds eta p1 T1 T1 Hp1 ltac:(lra)) as B1.
  pose proof (@rounds_bounds eta p2 T2 T2 Hp2 ltac:(lra)) as B2.
  pose proof (@rounds_bounds eta p3 T3 T3 Hp3 ltac:(lra)) as B3.
  pose proof (@rounds_bounds eta s1 (p0 + p1) (2 * (T0 + T1) + 2 * eta)
                Hs1 ltac:(lra)) as C1.
  pose proof (@rounds_bounds eta s2 (s1 + p2) (2 * (T0 + T1 + T2) + 5 * eta)
                Hs2 ltac:(lra)) as C2.
  pose proof (@rounds_bounds eta S (s2 + p3) (2 * (T0 + T1 + T2 + T3) + 7 * eta)
                HS ltac:(lra)) as C3.
  clear Hp0 Hp1 Hp2 Hp3 Hs1 Hs2 HS.
  set (T := T0 + T1 + T2 + T3) in *.
  assert (HT : T = T0 + T1 + T2 + T3) by reflexivity.
  assert (HTS0 : - (/ 4503599627370496 * (8 * T) + 9 * eta) <= T - S
                 <= / 4503599627370496 * (8 * T) + 9 * eta) by lra.
  assert (HTS : - (/ 281474976710656 * S) <= T - S <= / 281474976710656 * S) by lra.
  assert (HSpos : 0 <= S) by lra.
  clear B0 B1 B2 B3 C1 C2 C3.
  set (rho := r * r) in *.
  assert (Hrho : 0 <= rho) by (unfold rho; nra).
  apply Rabs_le_inv in Hr.
  set (A := rho * S) in *.
  assert (HV : - (/ 281474976710656 * A) <= rho * T - A <= / 281474976710656 * A).
  { unfold A. nra. }
  set (V := rho * T) in *.
  assert (HV1 : - (/ 549755813888) <= V - 1 <= / 549755813888) by lra.
  (* each exact component is at most 2 in size *)
  assert (Hx : forall t, 0 <= t * t -> rho * (t * t) <= V -> -2 <= t * r <= 2).
  { intros t Ht HtV.
    assert ((t * r) * (t * r) <= 2) by (unfold rho in HtV; nra). nra. }
  assert (HTV : forall Ti, 0 <= Ti -> Ti <= T -> rho * Ti <= V)
    by (intros Ti H0 H1; unfold V; nra).
  assert (X0 : -2 <= t0 * r <= 2)
    by (apply Hx; [exact HT0 | apply HTV; [exact HT0 | change (T0 <= T); lra]]).
  assert (X1 : -2 <= t1 * r <= 2)
    by (apply Hx; [exact HT1 | apply HTV; [exact HT1 | change (T1 <= T); lra]]).
  assert (X2 : -2 <= t2 * r <= 2)
    by (apply Hx; [exact HT2 | apply HTV; [exact HT2 | change (T2 <= T); lra]]).
  assert (X3 : -2 <= t3 * r <= 2)
    by (apply Hx; [exact HT3 | apply HTV; [exact HT3 | change (T3 <= T); lra]]).
  split; [exact HV1 |]. auto.
Qed.

(** The rounded quaternion: its squared norm is within 1e-11 of 1. *)
Lemma unit_norm_real (eta t0 t1 t2 t3 p0 p1 p2 p3 s1 s2 S r q0 q1 q2 q3 : R) :
  0 <= eta -> eta <= / 4503599627370496 * S -> eta <= / 4503599627370496 ->
  rounds eta p0 (t0 * t0) -> rounds eta p1 (t1 * t1) ->
  rounds eta p2 (t2 * t2) -> rounds eta p3 (t3 * t3) ->
  rounds eta s1 (p0 + p1) -> rounds eta s2 (s1 + p2) -> rounds eta S (s2 + p3) ->
  Rabs (r * r * S - 1) <= / 1099511627776 ->
  rounds eta q0 (t0 * r) -> rounds eta q1 (t1 * r) ->
  rounds eta q2 (t2 * r) -> rounds eta q3 (t3 * r) ->
  Rabs (q0 * q0 + q1 * q1 + q2 * q2 + q3 * q3 - 1) <= / 100000000000.
Proof.
  intros He HeS Heu Hp0 Hp1 Hp2 Hp3 Hs1 Hs2 HS Hr Hq0 Hq1 Hq2 Hq3.
  destruct (@scaled_components eta t0 t1 t2 t3 p0 p1 p2 p3 s1 s2 S r
              He HeS Heu Hp0 Hp1 Hp2 Hp3 Hs1 Hs2 HS Hr)
    as (HV1 & X0 & X1 & X2 & X3).
  set (V := r * r * (t0 * t0 + t1 * t1 + t2 * t2 + t3 * t3)) in *.
  pose proof (@rounds_bounds eta q0 (t0 * r) 2 Hq0 X0) as D0.
  pose proof (@rounds_bounds eta q1 (t1 * r) 2 Hq1 X1) as D1.
  pose proof (@rounds_bounds eta q2 (t2 * r) 2 Hq2 X2) as D2.
  pose proof (@rounds_bounds eta q3 (t3 * r) 2 Hq3 X3) as D3.
  set (c := 3 * / 4503599627370496).
  pose proof (@square_bound (t0 * r) (q0 - t0 * r) c X0
                ltac:(unfold c; lra) ltac:(unfold c; lra)) as E0.
  pose proof (@square_bound (t1 * r) (q1 - t1 * r) c X1
                ltac:(unfold c; lra) ltac:(unfold c; lra)) as E1.
  pose proof (@square_bound (t2 * r) (q2 - t2 * r) c X2
                ltac:(unfold c; lra) ltac:(unfold c; lra)) as E2.
  pose proof (@square_bound (t3 * r) (q3 - t3 * r) c X3
                ltac:(unfold c; lra) ltac:(unfold c; lra)) as E3.
  replace (t0 * r + (q0 - t0 * r)) with q0 in E0 by ring.
  replace (t1 * r + (q1 - t1 * r)) with q1 in E1 by ring.
  replace (t2 * r + (q2 - t2 * r)) with q2 in E2 by ring.
  replace (t3 * r + (q3 - t3 * r)) with q3 in E3 by ring.
  assert (HVsum : V = t0 * r * (t0 * r) + t1 * r * (t1 * r)
                      + t2 * r * (t2 * r) + t3 * r * (t3 * r))
    by (unfold V; ring).
  apply Rabs_le. unfold c in *. lra.
Qed.

Lemma sqrt_near_one (x d : R) :
  0 <= d -> Rabs (x - 1) <= d -> d <= 1 -> Rabs (sqrt x - 1) <= d.
Proof.
  intros Hd Hx Hd1. apply Rabs_le_inv in Hx.
  assert (H0 : 0 <= x) by lra.
  pose proof (sqrt_pos x) as Hs. pose proof (sqrt_sqrt x H0) as Hss.
  apply Rabs_le. nra.
Qed.

End RealSide.

(* ================================================================== *)
(** ** The filter at binary64 *)

Section OnBinary64.
Import B64 B64Facts.
Context {M : MathLib}.
Local Open Scope Z_scope.
Local Open Scope js_scope.

Lemma Mahony_gains (sampleInterval : float) :
  twoKp (Mahony sampleInterval) = one /\
  twoKi (Mahony sampleInterval) = pzero /\
  integralFBx (Mahony sampleInterval) = pzero /\
  integralFBy (Mahony sampleInterval) = pzero /\
  integralFBz (Mahony sampleInterval) = pzero.
Proof. repeat split. Qed.

Lemma perform_keeps_gains (s : state float) (o : operation float) :
  twoKp (perform s o) = twoKp s /\ twoKi (perform s o) = twoKi s.
Proof.
  destruct o as [amx amy amz | c | |]; cbn [perform];
    try (split; reflexivity).
  apply update_gains.
Qed.

Lemma perform_keeps_integralFB (s : state float) (o : operation float) :
  twoKi s = pzero ->
  integralFBx s = pzero -> integralFBy s = pzero -> integralFBz s = pzero ->
  integralFBx (perform s o) = pzero /\
  integralFBy (perform s o) = pzero /\
  integralFBz (perform s o) = pzero.
Proof.
  intros Hki Hx Hy Hz.
  destruct o as [amx amy amz | c | |]; cbn [perform]; auto.
  apply (update_zero_gain (N := number) s c); auto.
  cbn. rewrite Hki. reflexivity.
Qed.

(** C9.  The gains are fixed: after any run of operations of the returned
    object on a filter built by [Mahony], whatever the sample interval,
    [twoKp] is 1.0 and [twoKi] is 0.0, the test [twoKi > 0.0] that guards the
    accumulation of integral feedback is false, and the integral terms are
    (0, 0, 0). *)
Theorem gains_fixed_integral_zero
    (sampleInterval : float) (os : list (operation float)) :
  let s := run (Mahony sampleInterval) os in
  twoKp s = one /\ twoKi s = pzero /\
  (twoKi s >? lit_0) = false /\
  integralFBx s = pzero /\ integralFBy s = pzero /\ integralFBz s = pzero.
Proof.
  cbn zeta.
  assert (Hgen : forall (os : list (operation float)) (s : state float),
    twoKp s = one -> twoKi s = pzero ->
    integralFBx s = pzero -> integralFBy s = pzero -> integralFBz s = pzero ->
    twoKp (run s os) = one /\ twoKi (run s os) = pzero /\
    integralFBx (run s os) = pzero /\ integralFBy (run s os) = pzero /\
    integralFBz (run s os) = pzero).
  { clear. induction os as [| o os IH]; intros s Hkp Hki Hx Hy Hz.
    - cbn. auto.
    - cbn [run fold_left].
      destruct (perform_keeps_gains s o) as (Hp & Hi).
      destruct (perform_keeps_integralFB s o Hki Hx Hy Hz) as (Hx' & Hy' & Hz').
      apply IH; congruence. }
  destruct (Mahony_gains sampleInterval) as (Hkp & Hki & Hx & Hy & Hz).
  destruct (Hgen os _ Hkp Hki Hx Hy Hz) as (A & B & C & D & E).
  rewrite B. repeat split; assumption.
Qed.

(** C6.  [initialise] on finite arguments, from any state: the quaternion
    read back is 1.0 followed by three zeros, so it compares [===] to
    (1, 0, 0, 0); the other fields are untouched.  A negative argument leaves
    a negative zero in its component. *)
Theorem initialise_is_identity (s : state float) (amx amy amz : float) :
  conforms M ->
  is_finite amx = true -> is_finite amy = true -> is_finite amz = true ->
  let q := getQuaternion (initialise s amx amy amz) in
  w q = one /\
  is_zero (x q) = true /\ is_zero (y q) = true /\ is_zero (z q) = true /\
  is_identity q = true.
Proof.
  intros HM Hx Hy Hz q.
  assert (Hinit : initialise s amx amy amz
                  = set_quaternion s (lib_cos pzero)
                      (mul amx (lib_sin pzero)) (mul amy (lib_sin pzero))
                      (mul amz (lib_sin pzero))) by reflexivity.
  rewrite (cos_pzero HM), (sin_pzero HM) in Hinit.
  unfold q. rewrite Hinit.
  change (getQuaternion (set_quaternion s one (mul amx pzero) (mul amy pzero)
                                        (mul amz pzero)))
    with (mkQuaternion one (mul amx pzero) (mul amy pzero) (mul amz pzero)).
  cbn [w x y z].
  assert (Hqx : is_zero (mul amx pzero) = true) by (apply mul_finite_zero; auto).
  assert (Hqy : is_zero (mul amy pzero) = true) by (apply mul_finite_zero; auto).
  assert (Hqz : is_zero (mul amz pzero) = true) by (apply mul_finite_zero; auto).
  repeat split; auto.
  unfold is_identity. cbn [w x y z].
  rewrite !eqb_pzero_is_zero, Hqx, Hqy, Hqz. reflexivity.
Qed.

(** C7.  [toVector]: the angle is 2 * acos(w) and each axis component is the
    quaternion component divided by sin(angle / 2); when w is 1.0 the angle
    is +0, the divisor is +0, and the three axis components are not finite
    (NaN for a zero component, an infinity otherwise). *)
Theorem toVector_singular_at_identity (s : state float) :
  conforms M ->
  let v := toVector s in
  angle v = mul two (lib_acos (q0 s)) /\
  vx v = div (q1 s) (lib_sin (div (angle v) two)) /\
  vy v = div (q2 s) (lib_sin (div (angle v) two)) /\
  vz v = div (q3 s) (lib_sin (div (angle v) two)) /\
  (q0 s = one ->
     angle v = pzero /\ lib_sin (div (angle v) two) = pzero /\
     is_finite (vx v) = false /\ is_finite (vy v) = false /\
     is_finite (vz v) = false).
Proof.
  intros HM v.
  do 4 (split; [reflexivity |]).
  intros Hw.
  assert (Hang : angle v = pzero).
  { change (angle v) with (mul two (lib_acos (q0 s))).
    rewrite Hw, (acos_one HM). reflexivity. }
  assert (Hsin : lib_sin (div (angle v) two) = pzero).
  { rewrite Hang. change (div pzero two) with pzero. apply (sin_pzero HM). }
  repeat split; try assumption.
  - change (vx v) with (div (q1 s) (lib_sin (div (angle v) two))).
    rewrite Hsin. apply div_pzero_not_finite.
  - change (vy v) with (div (q2 s) (lib_sin (div (angle v) two))).
    rewrite Hsin. apply div_pzero_not_finite.
  - change (vz v) with (div (q3 s) (lib_sin (div (angle v) two))).
    rewrite Hsin. apply div_pzero_not_finite.
Qed.

Lemma all_zero_is_zero (a b c : float) :
  all_zero a b c = is_zero a && is_zero b && is_zero c.
Proof. unfold all_zero. cbn. rewrite !eqb_pzero_is_zero. reflexivity. Qed.

(** Integrating zero rates from the identity gives the identity back, bit
    for bit, whatever the timestep and the signs of the zeros. *)
Lemma integrate_rate_identity (s : state float) (gx gy gz : float) :
  q0 s = one -> q1 s = pzero -> q2 s = pzero -> q3 s = pzero ->
  is_finite (mul half (recipSampleFreq s)) = true ->
  is_zero gx = true -> is_zero gy = true -> is_zero gz = true ->
  integrate_rate s gx gy gz = s.
Proof.
  intros H0 H1 H2 H3 Hf Hx Hy Hz.
  destruct s as [r kp ki a b c d ix iy iz].
  cbn [q0 q1 q2 q3 recipSampleFreq] in H0, H1, H2, H3, Hf.
  subst a b c d.
  unfold integrate_rate, set_quaternion.
  cbn [recipSampleFreq twoKp twoKi q0 q1 q2 q3 integralFBx integralFBy integralFBz].
  change (@lit_half float number) with half.
  change (@num_mul float number) with mul.
  pose proof (mul_zero_finite gx _ Hx Hf) as Zx.
  pose proof (mul_zero_finite gy _ Hy Hf) as Zy.
  pose proof (mul_zero_finite gz _ Hz Hf) as Zz.
  destruct (mul gx (mul half r)) as [sx | | |]; try discriminate Zx.
  destruct (mul gy (mul half r)) as [sy | | |]; try discriminate Zy.
  destruct (mul gz (mul half r)) as [sz | | |]; try discriminate Zz.
  destruct sx, sy, sz; reflexivity.
Qed.

Lemma normalise_identity (s : state float) :
  pow_one_exact M ->
  q0 s = one -> q1 s = pzero -> q2 s = pzero -> q3 s = pzero ->
  normalise s = s.
Proof.
  intros Hp H0 H1 H2 H3.
  destruct s as [r kp ki a b c d ix iy iz].
  cbn [q0 q1 q2 q3 recipSampleFreq] in H0, H1, H2, H3.
  subst a b c d.
  unfold normalise, set_quaternion.
  cbn [recipSampleFreq twoKp twoKi q0 q1 q2 q3 integralFBx integralFBy integralFBz].
  change (Math_pow (one * one + pzero * pzero + pzero * pzero + pzero * pzero) (- lit_half))
    with (lib_pow one (opp half)).
  rewrite Hp. reflexivity.
Qed.

(** C10.  Zero input: from a state whose quaternion is (1, 0, 0, 0), a call
    whose nine sensor arguments are zeros (of either sign), with any
    [deltaTimeSec] or none, takes the 6-axis path and leaves the quaternion
    (1, 0, 0, 0), bit for bit. *)
Theorem zero_input_identity
    (s : state float) (gx gy gz ax ay az mx my mz : float) (dt : option float) :
  pow_one_exact M ->
  q0 s = one -> q1 s = pzero -> q2 s = pzero -> q3 s = pzero ->
  is_zero gx = true -> is_zero gy = true -> is_zero gz = true ->
  is_zero ax = true -> is_zero ay = true -> is_zero az = true ->
  is_zero mx = true -> is_zero my = true -> is_zero mz = true ->
  let s' := update s gx gy gz ax ay az mx my mz dt in
  getQuaternion s' = getQuaternion s /\
  getQuaternion s' = mkQuaternion one pzero pzero pzero /\
  s' = mahonyAHRSupdateIMU
         (set_recipSampleFreq s (bit_or dt (recipSampleFreq s)))
         gx gy gz ax ay az.
Proof.
  intros Hp H0 H1 H2 H3 Hgx Hgy Hgz Hax Hay Haz Hmx Hmy Hmz s'.
  set (s1 := set_recipSampleFreq s (bit_or dt (recipSampleFreq s))).
  assert (Hm : all_zero mx my mz = true)
    by (rewrite all_zero_is_zero, Hmx, Hmy, Hmz; reflexivity).
  assert (Ha : all_zero ax ay az = true)
    by (rewrite all_zero_is_zero, Hax, Hay, Haz; reflexivity).
  assert (Himu : s' = mahonyAHRSupdateIMU s1 gx gy gz ax ay az).
  { unfold s', update, mahonyAHRSupdate. fold s1. rewrite Hm. reflexivity. }
  assert (Hs' : s' = s1).
  { rewrite Himu. unfold mahonyAHRSupdateIMU. rewrite Ha. cbn [negb].
    rewrite integrate_rate_identity; try assumption.
    - apply normalise_identity; assumption.
    - apply half_bitwise_or_finite. }
  split; [| split]; [| | exact Himu].
  - rewrite Hs'. reflexivity.
  - rewrite Hs'. unfold getQuaternion, s1. cbn. rewrite H0, H1, H2, H3. reflexivity.
Qed.


Lemma bitwise_or_small (dt : option float) (r : float) :
  small_dt dt = true -> ToInt32 r = 0%Z -> bitwise_or dt r = pzero.
Proof.
  intros Hdt Hr. unfold bitwise_or. rewrite Hr.
  destruct dt as [a |].
  - cbn [small_dt] in Hdt. apply andb_prop in Hdt. destruct Hdt as [Hv Hu].
    rewrite (ToInt32_unit_interval a Hv Hu). reflexivity.
  - reflexivity.
Qed.

Lemma small_dt_keeps_zero (s : state float) (c : sample float) :
  small_dt (s_dt c) = true -> recipSampleFreq s = pzero ->
  recipSampleFreq (update_with s c) = pzero.
Proof.
  intros Hdt Hr. unfold update_with.
  rewrite (update_recipSampleFreq (N := number)).
  change (bit_or (s_dt c) (recipSampleFreq s)) with (bitwise_or (s_dt c) (recipSampleFreq s)).
  apply bitwise_or_small; [assumption |]. rewrite Hr. reflexivity.
Qed.

Lemma small_dts_keep_zero (cs : list (sample float)) (s : state float) :
  forallb (fun c => small_dt (s_dt c)) cs = true ->
  recipSampleFreq s = pzero ->
  recipSampleFreq (run_updates s cs) = pzero.
Proof.
  revert s. induction cs as [| c cs IH]; intros s Hcs Hr.
  - exact Hr.
  - cbn [forallb] in Hcs. apply andb_prop in Hcs. destruct Hcs as [Hc Hcs].
    cbn [run_updates fold_left]. apply IH; [assumption |].
    apply small_dt_keeps_zero; assumption.
Qed.

Lemma forallb_firstn {A : Type} (f : A -> bool) (k : nat) (l : list A) :
  forallb f l = true -> forallb f (firstn k l) = true.
Proof.
  revert k. induction l as [| a l IH]; intros [| k] H; try reflexivity.
  cbn [forallb] in H. apply andb_prop in H. destruct H as [Ha Hl].
  cbn [firstn forallb]. rewrite Ha. cbn. apply IH, Hl.
Qed.

(** With a zero timestep the integration block adds a zero to every
    component of a finite quaternion, for finite rates. *)
Lemma integrate_rate_zero_timestep (s : state float) (gx gy gz : float) :
  recipSampleFreq s = pzero ->
  is_finite gx = true -> is_finite gy = true -> is_finite gz = true ->
  is_finite (q0 s) = true -> is_finite (q1 s) = true ->
  is_finite (q2 s) = true -> is_finite (q3 s) = true ->
  let s' := integrate_rate s gx gy gz in
  eqb (q0 s') (q0 s) = true /\ eqb (q1 s') (q1 s) = true /\
  eqb (q2 s') (q2 s) = true /\ eqb (q3 s') (q3 s) = true.
Proof.
  intros Hr Hgx Hgy Hgz H0 H1 H2 H3.
  destruct s as [r kp ki a b c d ix iy iz].
  cbn [q0 q1 q2 q3 recipSampleFreq] in Hr, H0, H1, H2, H3. subst r.
  unfold integrate_rate, set_quaternion.
  cbn [recipSampleFreq twoKp twoKi q0 q1 q2 q3 integralFBx integralFBy integralFBz].
  change (@lit_half float number) with half.
  change (@num_mul float number) with mul.
  change (@num_add float number) with add.
  change (@num_sub float number) with sub.
  change (@num_neg float number) with opp.
  change (mul half pzero) with pzero.
  assert (Zx : is_zero (mul gx pzero) = true) by (apply mul_finite_zero; auto).
  assert (Zy : is_zero (mul gy pzero) = true) by (apply mul_finite_zero; auto).
  assert (Zz : is_zero (mul gz pzero) = true) by (apply mul_finite_zero; auto).
  set (zx := mul gx pzero) in *. set (zy := mul gy pzero) in *.
  set (zz := mul gz pzero) in *.
  repeat split; apply add_zero_eqb; auto 6 with zeros.
Qed.


Lemma stored_below_one_spec (from count : nat) (n : Z) :
  stored_below_one from count = true ->
  (Z.of_nat from <= n < Z.of_nat from + Z.of_nat count)%Z ->
  valid (stored_interval (of_Z n)) = true /\
  in_unit_interval (stored_interval (of_Z n)) = true.
Proof.
  intros Hall Hn. unfold stored_below_one in Hall.
  rewrite forallb_forall in Hall.
  specialize (Hall (Z.to_nat n)). cbv zeta in Hall.
  rewrite Z2Nat.id in Hall by lia.
  apply andb_prop, Hall, in_seq. lia.
Qed.

Lemma stored_below_one_1_999 : stored_below_one 1 999 = true.
Proof. vm_compute. reflexivity. Qed.

(** Every whole number of milliseconds below 1000 is stored as a number in
    [0, 1). *)
Lemma whole_ms_below_1000 (n : Z) :
  (1 <= n <= 999)%Z ->
  valid (recipSampleFreq (Mahony (of_Z n))) = true /\
  in_unit_interval (recipSampleFreq (Mahony (of_Z n))) = true.
Proof.
  intros Hn.
  apply (stored_below_one_spec 1 999 stored_below_one_1_999). lia.
Qed.

(** C3 (amended).  The timestep merge.  (1) Every call stores
    [deltaTimeSec | recipSampleFreq] (both through ToInt32) as the new
    [recipSampleFreq].  (2) From a state whose stored value r is a number
    with 0 <= r < 1 -- as [Mahony] stores for every whole number of
    milliseconds from 1 to 999 -- a call
    with [deltaTimeSec] left out, zero, or in [0, 1) stores +0, and the
    stored value is still +0 after every further call whose [deltaTimeSec]
    is again left out, zero or in [0, 1); the timestep factor
    [0.5 * recipSampleFreq] is then +0.  (3) With a stored +0, the
    integration block adds a zero to each component of a finite quaternion,
    for finite rates: each component compares [===] to what it was. *)
Theorem bitwise_timestep_merge :
  (forall (s : state float) (gx gy gz ax ay az mx my mz : float)
          (dt : option float),
     recipSampleFreq (update s gx gy gz ax ay az mx my mz dt)
     = bitwise_or dt (recipSampleFreq s))
  /\
  (forall n : Z, (1 <= n <= 999)%Z ->
     valid (recipSampleFreq (Mahony (of_Z n))) = true /\
     in_unit_interval (recipSampleFreq (Mahony (of_Z n))) = true)
  /\
  (forall (s : state float) (c : sample float) (cs : list (sample float)),
     valid (recipSampleFreq s) = true ->
     in_unit_interval (recipSampleFreq s) = true ->
     small_dt (s_dt c) = true ->
     forallb (fun c' => small_dt (s_dt c')) cs = true ->
     forall k : nat,
       let s' := run_updates (update_with s c) (firstn k cs) in
       recipSampleFreq s' = pzero /\ mul half (recipSampleFreq s') = pzero)
  /\
  (forall (s : state float) (gx gy gz : float),
     recipSampleFreq s = pzero ->
     is_finite gx = true -> is_finite gy = true -> is_finite gz = true ->
     is_finite (q0 s) = true -> is_finite (q1 s) = true ->
     is_finite (q2 s) = true -> is_finite (q3 s) = true ->
     let s' := integrate_rate s gx gy gz in
     eqb (q0 s') (q0 s) = true /\ eqb (q1 s') (q1 s) = true /\
     eqb (q2 s') (q2 s) = true /\ eqb (q3 s') (q3 s) = true).
Proof.
  split; [| split; [| split]].
  - intros. apply (update_recipSampleFreq (N := number)).
  - exact whole_ms_below_1000.
  - intros s c cs Hv Hu Hc Hcs k s'.
    assert (H1 : recipSampleFreq (update_with s c) = pzero).
    { unfold update_with. rewrite (update_recipSampleFreq (N := number)).
      change (bit_or (s_dt c) (recipSampleFreq s))
        with (bitwise_or (s_dt c) (recipSampleFreq s)).
      apply bitwise_or_small; [assumption |].
      apply ToInt32_unit_interval; assumption. }
    assert (Hs' : recipSampleFreq s' = pzero).
    { unfold s'. apply small_dts_keep_zero; [| exact H1].
      apply forallb_firstn, Hcs. }
    split; [exact Hs' |]. rewrite Hs'. reflexivity.
  - intros. apply integrate_rate_zero_timestep; assumption.
Qed.

(** C2 (amended).  A supplied [deltaTimeSec] is not an override for one call:
    the call stores the merged value in the filter and integrates with what
    it stored.  When [deltaTimeSec] is a non-zero integer n of 32 bits and
    the stored value truncates to 0, the call runs its variant on the state
    whose [recipSampleFreq] is n, and a following call with [deltaTimeSec]
    left out or zero still has n stored: it does not go back to the value
    configured at construction. *)
Theorem timestep_override_persists
    (s : state float) (n : Z)
    (gx gy gz ax ay az mx my mz : float) (c2 : sample float) :
  (- 2 ^ 31 <= n < 2 ^ 31)%Z -> n <> 0%Z ->
  ToInt32 (recipSampleFreq s) = 0%Z ->
  s_dt c2 = None \/ (exists a, s_dt c2 = Some a /\ is_zero a = true) ->
  let s1 := update s gx gy gz ax ay az mx my mz (Some (of_Z n)) in
  s1 = (if all_zero mx my mz
        then mahonyAHRSupdateIMU (set_recipSampleFreq s (of_Z n))
                                 gx gy gz ax ay az
        else ahrs_body (set_recipSampleFreq s (of_Z n))
                       gx gy gz ax ay az mx my mz) /\
  recipSampleFreq s1 = of_Z n /\
  of_Z n <> pzero /\
  recipSampleFreq (update_with s1 c2) = of_Z n.
Proof.
  intros Hn Hnz Hr Hc2 s1.
  assert (Hmerge : bitwise_or (Some (of_Z n)) (recipSampleFreq s) = of_Z n).
  { unfold bitwise_or. rewrite Hr, ToInt32_of_Z, Z.lor_0_r, wrap32_small by lia.
    reflexivity. }
  assert (Hs1 : recipSampleFreq s1 = of_Z n).
  { unfold s1. rewrite (update_recipSampleFreq (N := number)). exact Hmerge. }
  split; [| split; [exact Hs1 | split]].
  - unfold s1, update, mahonyAHRSupdate.
    change (bit_or (Some (of_Z n)) (recipSampleFreq s))
      with (bitwise_or (Some (of_Z n)) (recipSampleFreq s)).
    rewrite Hmerge. reflexivity.
  - intros H0. apply Hnz. rewrite <- (truncate_of_Z (n := n)) by lia.
    rewrite H0. reflexivity.
  - unfold update_with. rewrite (update_recipSampleFreq (N := number)), Hs1.
    change (bit_or (s_dt c2) (of_Z n)) with (bitwise_or (s_dt c2) (of_Z n)).
    unfold bitwise_or. rewrite ToInt32_of_Z by lia.
    destruct Hc2 as [Hnone | (a & Hsome & Ha)].
    + rewrite Hnone. rewrite Z.lor_0_l, wrap32_small by lia. reflexivity.
    + rewrite Hsome.
      assert (Ha0 : ToInt32 a = 0%Z)
        by (destruct a; try discriminate Ha; reflexivity).
      rewrite Ha0, Z.lor_0_l, wrap32_small by lia. reflexivity.
Qed.

End OnBinary64.


(* ================================================================== *)
(** ** The norm after a call *)

Section UnitNorm.
Import B64 B64Facts Measure RoundingError RealSide.
Context {M : MathLib}.
Local Open Scope R_scope.

Lemma mul_finite_inv (a b : float) :
  is_finite (mul a b) = true -> is_finite a = true /\ is_finite b = true.
Proof.
  destruct a as [sa | sa | | sa ma ea]; destruct b as [sb | sb | | sb mb eb];
    cbn; intros H; try discriminate H; auto.
Qed.

(** The closing block of [update] on an ordinary quaternion. *)
Lemma normalise_unit_norm (t : state float) :
  ordinary_normalisation t ->
  finite_quaternion (getQuaternion (normalise t)) = true /\
  Rabs (norm_R (getQuaternion (normalise t)) - 1) <= / 1000000000.
Proof.
  intros (HS & Hr).
  set (S := squared_norm t) in *. set (r := lib_pow S (opp half)) in *.
  assert (Hq : getQuaternion (normalise t)
               = mkQuaternion (mul (q0 t) r) (mul (q1 t) r)
                              (mul (q2 t) r) (mul (q3 t) r)) by reflexivity.
  rewrite Hq. clear Hq.
  pose proof (pow2_pos (-1000)) as P1000.
  pose proof (pow2_pos (-1074)) as P1074.
  (* every number on the way to S is finite *)
  assert (HSf : is_finite S = true) by (apply to_R_pos_finite; lra).
  unfold S, squared_norm in HSf.
  destruct (add_finite_inv _ _ HSf) as [HS2 Hp3].
  destruct (add_finite_inv _ _ HS2) as [HS1 Hp2].
  destruct (add_finite_inv _ _ HS1) as [Hp0 Hp1].
  assert (Heta : pow2 (-1074) <= / 4503599627370496 * to_R S).
  { rewrite <- pow2_m52.
    replace (-1074)%Z with (-52 + -1022)%Z by lia. rewrite pow2_add.
    pose proof (pow2_pos (-52)). pose proof (@pow2_le (-1022) (-1000) ltac:(lia)).
    nra. }
  assert (Heta1 : pow2 (-1074) <= / 4503599627370496).
  { rewrite <- pow2_m52. apply pow2_le. lia. }
  assert (Hr' : Rabs (to_R r * to_R r * to_R S - 1) <= / 1099511627776).
  { rewrite <- pow2_m40. exact Hr. }
  (* so is r, and so are the four products with r: they are at most 2 *)
  assert (Hrf : is_finite r = true).
  { destruct r; try reflexivity; cbn [to_R] in Hr';
      replace (0 * 0 * to_R S - 1) with (Ropp 1) in Hr' by ring;
      rewrite Rabs_Ropp, Rabs_R1 in Hr'; lra. }
  destruct (@scaled_components (pow2 (-1074))
              (to_R (q0 t)) (to_R (q1 t)) (to_R (q2 t)) (to_R (q3 t))
              (to_R (mul (q0 t) (q0 t))) (to_R (mul (q1 t) (q1 t)))
              (to_R (mul (q2 t) (q2 t))) (to_R (mul (q3 t) (q3 t)))
              (to_R (add (mul (q0 t) (q0 t)) (mul (q1 t) (q1 t))))
              (to_R (add (add (mul (q0 t) (q0 t)) (mul (q1 t) (q1 t)))
                         (mul (q2 t) (q2 t))))
              (to_R S) (to_R r)
              ltac:(lra) Heta Heta1
              (rounds_mul _ _ Hp0) (rounds_mul _ _ Hp1)
              (rounds_mul _ _ Hp2) (rounds_mul _ _ Hp3)
              (rounds_add _ _ HS1) (rounds_add _ _ HS2) (rounds_add _ _ HSf)
              Hr')
    as (_ & X0 & X1 & X2 & X3).
  assert (Hfin : forall a : float,
            is_finite a = true -> -2 <= to_R a * to_R r <= 2 ->
            is_finite (mul a r) = true).
  { intros a Ha Hb. destruct (is_finite (mul a r)) eqn:F; [reflexivity |].
    exfalso.
    pose proof (mul_overflow a r Ha Hrf F) as Hbig.
    pose proof (@pow2_le 2 972 ltac:(lia)) as H4.
    rewrite (@pow2_IZR 2) in H4 by lia. change (2 ^ 2)%Z with 4%Z in H4.
    assert (Rabs (to_R a * to_R r) <= 2) by (apply Rabs_le; lra). lra. }
  pose proof (Hfin _ (proj1 (mul_finite_inv _ _ Hp0)) X0) as F0.
  pose proof (Hfin _ (proj1 (mul_finite_inv _ _ Hp1)) X1) as F1.
  pose proof (Hfin _ (proj1 (mul_finite_inv _ _ Hp2)) X2) as F2.
  pose proof (Hfin _ (proj1 (mul_finite_inv _ _ Hp3)) X3) as F3.
  split.
  { unfold finite_quaternion. cbn [w x y z]. rewrite F0, F1, F2, F3.
    reflexivity. }
  unfold norm_R. cbn [w x y z].
  apply sqrt_near_one; [lra | | lra].
  eapply Rle_trans; [| apply (Rlt_le (/ 100000000000) (/ 1000000000)); lra].
  apply (@unit_norm_real (pow2 (-1074))
           (to_R (q0 t)) (to_R (q1 t)) (to_R (q2 t)) (to_R (q3 t))
           (to_R (mul (q0 t) (q0 t))) (to_R (mul (q1 t) (q1 t)))
           (to_R (mul (q2 t) (q2 t))) (to_R (mul (q3 t) (q3 t)))
           (to_R (add (mul (q0 t) (q0 t)) (mul (q1 t) (q1 t))))
           (to_R (add (add (mul (q0 t) (q0 t)) (mul (q1 t) (q1 t)))
                      (mul (q2 t) (q2 t))))
           (to_R S) (to_R r));
    try (apply rounds_mul; assumption);
    try (apply rounds_add; assumption);
    try assumption.
  lra.
Qed.

Lemma ordinary_normalisationb_sound (t : state float) :
  ordinary_normalisationb t = true -> ordinary_normalisation t.
Proof.
  unfold ordinary_normalisationb, ordinary_normalisation. cbv zeta.
  destruct (squared_norm t) as [| | | sS mS eS]; try discriminate.
  destruct sS; try discriminate.
  destruct (lib_pow _ _) as [| | | sr mr er]; try discriminate.
  intros H.
  apply andb_prop in H. destruct H as [H Hacc].
  apply andb_prop in H. destruct H as [HeS HE].
  apply Z.leb_le in HeS, HE, Hacc.
  split.
  - cbn [to_R]. pose proof (@pow2_le (-1000) eS HeS) as Hle.
    pose proof (pow2_pos (-1000)).
    assert (1 <= IZR (Zpos mS)) by (apply IZR_le; lia). nra.
  - set (E := (2 * er + eS)%Z) in *.
    set (K := (2 ^ (- E))%Z) in *.
    assert (HK : (0 < K)%Z) by (apply Z.pow_pos_nonneg; lia).
    assert (HKr : 0 < IZR K) by (apply IZR_lt; exact HK).
    assert (Hval : to_R (S754_finite sr mr er) * to_R (S754_finite sr mr er)
                   * to_R (S754_finite false mS eS)
                   = IZR (Zpos mr * Zpos mr * Zpos mS) * / IZR K).
    { cbn [to_R]. unfold K. rewrite <- pow2_inv by lia.
      replace (- - E)%Z with (er + er + eS)%Z by (unfold E; lia).
      rewrite !pow2_add, !mult_IZR. destruct sr; ring. }
    rewrite Hval.
    replace (IZR (Zpos mr * Zpos mr * Zpos mS) * / IZR K - 1)
      with (IZR (Zpos mr * Zpos mr * Zpos mS - K) * / IZR K)
      by (rewrite minus_IZR; field; lra).
    rewrite Rabs_mult, <- abs_IZR, (Rabs_right (/ IZR K))
      by (apply Rle_ge, Rlt_le, Rinv_0_lt_compat; exact HKr).
    rewrite pow2_m40.
    apply IZR_le in Hacc. rewrite mult_IZR in Hacc.
    set (A := IZR (Z.abs (Zpos mr * Zpos mr * Zpos mS - K))) in *.
    change (2 ^ 40)%Z with 1099511627776%Z in *.
    replace (/ 1099511627776) with (IZR K * / 1099511627776 * / IZR K)
      by (field; lra).
    apply Rmult_le_compat_r; [apply Rlt_le, Rinv_0_lt_compat; exact HKr | lra].
Qed.

Lemma run_updates_snoc (s : state float) (cs : list (sample float))
    (c : sample float) :
  run_updates s (cs ++ [c]) = update_with (run_updates s cs) c.
Proof. unfold run_updates. rewrite fold_left_app. reflexivity. Qed.

(** C1 (amended).  Unit norm after an ordinary call.  Take any state, any
    run of [update] calls [cs] (ordinary or not) and one more call [c], in
    either variant.  The call ends by rescaling the integrated quaternion by
    r = [Math.pow(S, -0.5)], where S is its squared norm as the code computes
    it.  If S is a number of at least 2^-1000 (no NaN, overflow or underflow
    on the way to it) and r is accurate there, |r^2 S - 1| <= 2^-40, then the
    four components stored are finite and the quaternion read back after the
    call has norm 1 within 1e-9: the norm is that of the four binary64
    components, taken in the reals. *)
Theorem unit_norm_after_ordinary_call
    (s : state float) (cs : list (sample float)) (c : sample float) :
  let t := integrated_with (run_updates s cs) c in
  let s' := run_updates s (cs ++ [c]) in
  s' = normalise t /\
  (ordinary_normalisation t ->
   finite_quaternion (getQuaternion s') = true /\
   Rabs (norm_R (getQuaternion s') - 1) <= / 1000000000).
Proof.
  intros t s'.
  assert (Hs' : s' = normalise t).
  { unfold s', t. rewrite run_updates_snoc.
    apply (update_normalises (N := number)). }
  split; [exact Hs' |]. intros Ht. rewrite Hs'.
  apply normalise_unit_norm, Ht.
Qed.

End UnitNorm.

(* ================================================================== *)
(** ** Runs on concrete inputs *)

Section Runs.
Import B64 B64Facts Run.
Local Open Scope Z_scope.

Lemma ref_math_conforms : conforms ref_math.
Proof. constructor; reflexivity. Qed.

Lemma ref_math_pow_one : pow_one_exact ref_math.
Proof. reflexivity. Qed.

(** A NaN rate makes the quaternion NaN from any state and with any [Math]:
    each component receives a product with [gx]. *)
Lemma nan_rate_poisons (M : MathLib) (s : state float) (dt : option float) :
  getQuaternion (update_with (N := @number M) s (spin nan dt))
  = mkQuaternion nan nan nan nan.
Proof.
  unfold update_with, spin. cbn [s_gx s_gy s_gz s_ax s_ay s_az s_mx s_my s_mz s_dt].
  unfold update, mahonyAHRSupdate.
  change (all_zero (N := @number M) pzero pzero pzero) with true. cbn iota.
  unfold mahonyAHRSupdateIMU.
  change (all_zero (N := @number M) pzero pzero pzero) with true. cbn [negb].
  set (s1 := set_recipSampleFreq s _).
  unfold normalise, integrate_rate, getQuaternion, set_quaternion.
  cbn [q0 q1 q2 q3 recipSampleFreq].
  change (@num_mul float (@number M)) with mul.
  change (@num_add float (@number M)) with add.
  change (@num_sub float (@number M)) with sub.
  change (@num_neg float (@number M)) with opp.
  change (mul nan (mul (@lit_half float (@number M)) (recipSampleFreq s1)))
    with nan.
  assert (Hm : forall a, mul a nan = nan) by (intros [| | |]; reflexivity).
  assert (Hs1 : forall a, sub nan a = nan) by reflexivity.
  assert (Hs2 : forall a, sub a nan = nan) by (intros [| | |]; reflexivity).
  assert (Ha1 : forall a, add nan a = nan) by reflexivity.
  assert (Ha2 : forall a, add a nan = nan) by (intros [| | |]; reflexivity).
  rewrite !Hm, ?Hs1, ?Hs2, ?Ha1, ?Ha2, ?Hs1, ?Hs2, ?Ha1, ?Ha2. reflexivity.
Qed.

(** C1, counterexample.  [Mahony(20)], then [update(NaN, 0, ..., 0)]: the
    quaternion is (NaN, NaN, NaN, NaN) and its norm is not within 1e-9
    of 1. *)
Lemma nan_rate_breaks_unit_norm :
  getQuaternion (call (filter 20) (spin nan None))
  = mkQuaternion nan nan nan nan /\
  unit_within (decimal 1 9) (getQuaternion (call (filter 20) (spin nan None)))
  = false.
Proof. split; vm_compute; reflexivity. Qed.

(** Finite arguments do it too: a rate of 1e200 with a timestep of 1 s
    overflows the squared norm, the normalisation multiplies by +0, and the
    next call divides by a zero norm. *)
Lemma overflow_breaks_unit_norm :
  let s1 := call (filter 20) (spin (of_Z (10 ^ 200)) (Some one)) in
  getQuaternion s1 = mkQuaternion pzero pzero pzero pzero /\
  unit_within (decimal 1 9) (getQuaternion s1) = false /\
  getQuaternion (call s1 still) = mkQuaternion nan nan nan nan.
Proof. repeat split; vm_compute; reflexivity. Qed.

(** Nor is it a matter of the arguments alone: with a [Math.pow] that meets
    every requirement of ECMAScript but is inaccurate, an ordinary call
    leaves a norm of 2. *)
Lemma inaccurate_pow_breaks_unit_norm :
  conforms loose_math /\ pow_one_exact loose_math /\
  unit_within (decimal 1 9)
    (getQuaternion (update_with (N := @number loose_math) (filter 20) turning))
  = false /\
  eqb (norm (getQuaternion
               (update_with (N := @number loose_math) (filter 20) turning)))
      two = true.
Proof.
  split; [constructor; reflexivity |]. split; [reflexivity |].
  split; vm_compute; reflexivity.
Qed.

(** An ordinary call, for comparison. *)
Lemma ordinary_call_unit_norm :
  unit_within (decimal 1 9)
    (getQuaternion (calls (filter 20) [heading; level; spin one (Some one)]))
  = true.
Proof. vm_compute. reflexivity. Qed.

(** C4, counterexample.  [update(0.1, 0.2, 0.3, 0, 0, 0, 0.3, 0.4, 0.5, 1)]
    on [Mahony(20)]: a magnetometer argument is not zero and the
    magnetic-field correction of this reading is not zero, yet the call is
    the integration of the rates as they came and stores what the same call
    with the magnetometer arguments (0, 0, 0) stores.  With an accelerometer
    reading the magnetometer does change what is stored. *)
Lemma magnetometer_unused_without_accelerometer :
  let s1 := set_recipSampleFreq (filter 20) one in
  eqb (s_mx falling_heading) pzero = false /\
  is_zero (fst (fst (magnetic_error (N := ref_number) s1 (decimal 3 1)
                                    (decimal 4 1) (decimal 5 1)))) = false /\
  call (filter 20) falling_heading
  = normalise (N := ref_number)
      (integrate_rate (N := ref_number) s1 (decimal 1 1) (decimal 2 1)
                      (decimal 3 1)) /\
  call (filter 20) falling_heading = call (filter 20) falling /\
  eqb (x (getQuaternion (call (filter 20) turning_heading)))
      (x (getQuaternion (call (filter 20) turning))) = false.
Proof. repeat split; vm_compute; reflexivity. Qed.

(** C2, counterexample.  [Mahony(20)] stores 0.02.  After a call with
    [deltaTimeSec = 2], a call without it has 2 stored, not 0.02. *)
Lemma override_outlives_its_call :
  let s2 := call (call (filter 20) (spin pzero (Some two))) still in
  recipSampleFreq (filter 20) = decimal 2 2 /\
  recipSampleFreq s2 = two /\
  eqb (recipSampleFreq s2) (recipSampleFreq (filter 20)) = false.
Proof. repeat split; vm_compute; reflexivity. Qed.

(** C3, counterexample.  A sample interval above 1000 ms: [Mahony(2000)]
    stores 2, and a call without [deltaTimeSec] leaves 2, not 0.  Also: a
    stored 0 does not outlast a later [deltaTimeSec = 5], and with a stored
    0 a NaN rate still changes the quaternion. *)
Lemma long_interval_not_zeroed :
  ltb thousand (of_Z 2000) = true /\
  recipSampleFreq (filter 2000) = two /\
  recipSampleFreq (call (filter 2000) still) = two /\
  recipSampleFreq (call (filter 20) still) = pzero /\
  recipSampleFreq (call (call (filter 20) still) (spin pzero (Some (of_Z 5))))
  = of_Z 5 /\
  getQuaternion (integrate_rate (N := ref_number) (call (filter 20) still)
                                nan pzero pzero)
  = mkQuaternion nan nan nan nan.
Proof. repeat split; vm_compute; reflexivity. Qed.

(** [initialise] with a negative, an infinite and a NaN argument. *)
Lemma initialise_non_finite :
  getQuaternion (initialise (N := ref_number) (filter 20)
                            (of_Z (-3)) pinf nan)
  = mkQuaternion one nzero nan nan.
Proof. vm_compute. reflexivity. Qed.

(** [toVector] on a new filter. *)
Lemma toVector_new_filter :
  toVector (N := ref_number) (filter 20) = mkAxisAngle pzero nan nan nan.
Proof. vm_compute. reflexivity. Qed.

End Runs.

(* ================================================================== *)
(** ** The theorems at concrete inputs *)

Section Witnesses.
Import B64 B64Facts Run.
Local Open Scope Z_scope.

(** C4 on [Mahony(20)] with a timestep of 1 s, at
    [update(0.1, 0.2, 0.3, 0, 0, 1, 0, 0, 0, 1)] and at
    [update(0.1, 0.2, 0.3, 0, 0, 1, 0.3, 0.4, 0.5, 1)]; the two calls store
    different quaternions. *)
Lemma mode_selection_and_correction_witness :
  let s1 := set_recipSampleFreq (filter 20)
              (bitwise_or (Some one) (recipSampleFreq (filter 20))) in
  (eqb pzero pzero = true /\
   all_zero (N := ref_number) pzero pzero one = false /\
   update (N := ref_number) (filter 20) (decimal 1 1) (decimal 2 1)
          (decimal 3 1) pzero pzero one pzero pzero pzero (Some one)
   = correct_and_integrate (N := ref_number) s1 (decimal 1 1) (decimal 2 1)
       (decimal 3 1) (gravity_error (N := ref_number) s1 pzero pzero one)) /\
  (eqb (decimal 3 1) pzero = false /\
   update (N := ref_number) (filter 20) (decimal 1 1) (decimal 2 1)
          (decimal 3 1) pzero pzero one (decimal 3 1) (decimal 4 1)
          (decimal 5 1) (Some one)
   = correct_and_integrate (N := ref_number) s1 (decimal 1 1) (decimal 2 1)
       (decimal 3 1)
       (error_sum (N := ref_number)
          (gravity_error (N := ref_number) s1 pzero pzero one)
          (magnetic_error (N := ref_number) s1 (decimal 3 1) (decimal 4 1)
                          (decimal 5 1)))) /\
  eqb (x (getQuaternion (call (filter 20) turning_heading)))
      (x (getQuaternion (call (filter 20) turning))) = false.
Proof.
  intro s1. split; [| split].
  - split; [reflexivity |]. split; [reflexivity |].
    pose proof (mode_selection_and_correction (N := ref_number) (filter 20)
                  (decimal 1 1) (decimal 2 1) (decimal 3 1) pzero pzero one
                  pzero pzero pzero (Some one)) as H.
    cbv zeta in H. destruct H as [H _].
    destruct (H (conj eq_refl (conj eq_refl eq_refl))) as [_ H1].
    exact (H1 eq_refl).
  - split; [reflexivity |].
    pose proof (mode_selection_and_correction (N := ref_number) (filter 20)
                  (decimal 1 1) (decimal 2 1) (decimal 3 1) pzero pzero one
                  (decimal 3 1) (decimal 4 1) (decimal 5 1) (Some one)) as H.
    cbv zeta in H. destruct H as [_ H].
    destruct (H (or_introl eq_refl)) as (_ & H1 & _).
    exact (H1 eq_refl).
  - vm_compute. reflexivity.
Defined.

(** C1 on [Mahony(20)]: two calls without [deltaTimeSec], then
    [update(0.1, 0.2, 0.3, 0, 0, 1, 0.3, 0.4, 0.5, 1)], with the reference
    [Math]. *)
Lemma unit_norm_after_ordinary_call_witness :
  let t := integrated_with (N := ref_number)
             (run_updates (N := ref_number) (filter 20) [heading; level])
             turning_heading in
  Measure.ordinary_normalisationb (M := ref_math) t = true /\
  (Rabs (Measure.norm_R
           (getQuaternion
              (run_updates (N := ref_number) (filter 20)
                           ([heading; level] ++ [turning_heading]))) - 1)
   <= / 1000000000)%R.
Proof.
  intro t.
  assert (H : Measure.ordinary_normalisationb (M := ref_math) t = true)
    by (vm_compute; reflexivity).
  split; [exact H |].
  pose proof (unit_norm_after_ordinary_call (M := ref_math) (filter 20)
                [heading; level] turning_heading) as Hthm.
  cbv zeta in Hthm. destruct Hthm as [_ Hthm].
  exact (proj2 (Hthm (ordinary_normalisationb_sound (M := ref_math) t H))).
Defined.

(** C5 at [update(1, 0, 0, 0, 0, 0, 0.3, 0, 0.5, 1)] on [Mahony(20)]. *)
Lemma zero_accelerometer_skips_correction_witness :
  let s1 := set_recipSampleFreq (filter 20)
              (bitwise_or (Some one) (recipSampleFreq (filter 20))) in
  let s' := update (N := ref_number) (filter 20) one pzero pzero
                   pzero pzero pzero (decimal 3 1) pzero (decimal 5 1)
                   (Some one) in
  eqb pzero pzero = true /\
  s' = normalise (N := ref_number)
         (integrate_rate (N := ref_number) s1 one pzero pzero) /\
  integralFBx s' = integralFBx (filter 20).
Proof.
  intros s1 s'. split; [reflexivity |].
  pose proof (zero_accelerometer_skips_correction (N := ref_number)
                (filter 20) one pzero pzero pzero pzero pzero
                (decimal 3 1) pzero (decimal 5 1) (Some one)
                eq_refl eq_refl eq_refl) as H.
  cbv zeta in H. destruct H as (H1 & _ & _ & H2 & _).
  split; [exact H1 | exact H2].
Defined.

(** C8 on [Mahony(20)] and three calls. *)
Lemma anti_windup_zero_gain_witness :
  ltb pzero (twoKi (filter 20)) = false /\
  integralFBx (filter 20) = pzero /\
  integralFBx (calls (filter 20) [heading; level; spin one (Some one)]) = pzero /\
  integralFBy (calls (filter 20) [heading; level; spin one (Some one)]) = pzero /\
  integralFBz (calls (filter 20) [heading; level; spin one (Some one)]) = pzero.
Proof.
  split; [reflexivity |]. split; [reflexivity |].
  pose proof (anti_windup_zero_gain (N := ref_number) (filter 20)
                [heading; level; spin one (Some one)]
                eq_refl eq_refl eq_refl eq_refl 3%nat) as H.
  cbv zeta in H. destruct H as (Hx & Hy & Hz & _).
  repeat split; assumption.
Defined.

(** C6 at [initialise(-3, 0.1, 2)] on [Mahony(20)]. *)
Lemma initialise_is_identity_witness :
  is_finite (of_Z (-3)) = true /\
  is_identity (getQuaternion (initialise (N := ref_number) (filter 20)
                                (of_Z (-3)) (decimal 1 1) two)) = true.
Proof.
  split; [reflexivity |].
  pose proof (initialise_is_identity (M := ref_math) (filter 20)
                (of_Z (-3)) (decimal 1 1) two
                ref_math_conforms eq_refl eq_refl eq_refl) as H.
  cbv zeta in H. destruct H as (_ & _ & _ & _ & H). exact H.
Defined.

(** C7 on [Mahony(20)], whose quaternion is the identity. *)
Lemma toVector_singular_at_identity_witness :
  q0 (filter 20) = one /\
  angle (toVector (N := ref_number) (filter 20)) = pzero /\
  is_finite (vx (toVector (N := ref_number) (filter 20))) = false.
Proof.
  split; [reflexivity |].
  pose proof (toVector_singular_at_identity (M := ref_math) (filter 20)
                ref_math_conforms) as H.
  cbv zeta in H. destruct H as (_ & _ & _ & _ & H).
  destruct (H eq_refl) as (Ha & _ & Hx & _).
  split; [exact Ha | exact Hx].
Defined.

(** C10 at [update(0, -0, 0, 0, 0, 0, 0, 0, -0, 0.02)] on [Mahony(20)]. *)
Lemma zero_input_identity_witness :
  getQuaternion (filter 20) = mkQuaternion one pzero pzero pzero /\
  getQuaternion (update (N := ref_number) (filter 20) pzero nzero pzero
                        pzero pzero pzero pzero pzero nzero
                        (Some (decimal 2 2)))
  = mkQuaternion one pzero pzero pzero.
Proof.
  split; [reflexivity |].
  pose proof (zero_input_identity (M := ref_math) (filter 20)
                pzero nzero pzero pzero pzero pzero pzero pzero nzero
                (Some (decimal 2 2)) ref_math_pow_one
                eq_refl eq_refl eq_refl eq_refl
                eq_refl eq_refl eq_refl eq_refl eq_refl eq_refl
                eq_refl eq_refl eq_refl) as H.
  cbv zeta in H. destruct H as (_ & H & _). exact H.
Defined.

(** C3 on [Mahony(20)] (0.02 stored), calls with [deltaTimeSec] left out,
    0.5 and 0, then an integration with rates (1, 2, 0). *)
Lemma bitwise_timestep_merge_witness :
  let cs := [spin one (Some half); spin one (Some pzero); still] in
  valid (recipSampleFreq (filter 20)) = true /\
  in_unit_interval (recipSampleFreq (filter 20)) = true /\
  forallb (fun c => small_dt (s_dt c)) cs = true /\
  recipSampleFreq (calls (call (filter 20) still) cs) = pzero /\
  eqb (q0 (integrate_rate (N := ref_number) (call (filter 20) still)
                          one two pzero))
      (q0 (call (filter 20) still)) = true.
Proof.
  intro cs. do 3 (split; [reflexivity |]).
  destruct (bitwise_timestep_merge (M := ref_math))
    as (_ & _ & Hkeep & Hint).
  split.
  - pose proof (Hkeep (filter 20) still cs eq_refl eq_refl eq_refl eq_refl
                  3%nat) as H.
    cbv zeta in H. destruct H as (H & _). exact H.
  - pose proof (Hint (call (filter 20) still) one two pzero
                  eq_refl eq_refl eq_refl eq_refl
                  eq_refl eq_refl eq_refl eq_refl) as H.
    cbv zeta in H. destruct H as (H & _). exact H.
Defined.

(** C2 on [Mahony(20)]: [update(..., 2)] and then a call without
    [deltaTimeSec]. *)
Lemma timestep_override_persists_witness :
  (- 2 ^ 31 <= 2 < 2 ^ 31) /\
  ToInt32 (recipSampleFreq (filter 20)) = 0 /\
  recipSampleFreq (call (filter 20) (spin one (Some (of_Z 2)))) = of_Z 2 /\
  recipSampleFreq (call (call (filter 20) (spin one (Some (of_Z 2)))) still)
  = of_Z 2.
Proof.
  split; [lia |]. split; [reflexivity |].
  pose proof (timestep_override_persists (M := ref_math) (filter 20) (n := 2)
                one pzero pzero pzero pzero pzero pzero pzero pzero still
                ltac:(lia) ltac:(discriminate) eq_refl
                (or_introl eq_refl)) as H.
  cbv zeta in H. destruct H as (_ & H1 & _ & H2).
  split; [exact H1 | exact H2].
Defined.

End Witnesses.

(* ================================================================== *)
(** ** Further properties at binary64: NaN, zero quaternions, the stored
       timestep, degenerate construction *)

Section EdgesOnBinary64.
Import B64 B64Facts Shape.
Context {M : MathLib}.
Local Open Scope Z_scope.
Local Open Scope js_scope.

Lemma mul_nan_l (a : float) : mul nan a = nan.
Proof. reflexivity. Qed.
Lemma mul_nan_r (a : float) : mul a nan = nan.
Proof. destruct a; reflexivity. Qed.
Lemma add_nan_l (a : float) : add nan a = nan.
Proof. reflexivity. Qed.
Lemma add_nan_r (a : float) : add a nan = nan.
Proof. destruct a; reflexivity. Qed.
Lemma sub_nan_l (a : float) : sub nan a = nan.
Proof. reflexivity. Qed.
Lemma sub_nan_r (a : float) : sub a nan = nan.
Proof. destruct a; reflexivity. Qed.
Lemma opp_nan : opp nan = nan.
Proof. reflexivity. Qed.

Create Rewrite HintDb nan_absorbs.
#[local] Hint Rewrite mul_nan_l mul_nan_r add_nan_l add_nan_r sub_nan_l sub_nan_r
  opp_nan : nan_absorbs.

(** The two closing blocks in binary64 terms. *)
Lemma closing_blocks (s : state float) (gx gy gz : float) :
  getQuaternion (normalise (integrate_rate s gx gy gz))
  = let hx := mul gx (mul half (recipSampleFreq s)) in
    let hy := mul gy (mul half (recipSampleFreq s)) in
    let hz := mul gz (mul half (recipSampleFreq s)) in
    let n0 := add (q0 s) (sub (sub (mul (opp (q1 s)) hx) (mul (q2 s) hy))
                              (mul (q3 s) hz)) in
    let n1 := add (q1 s) (sub (add (mul (q0 s) hx) (mul (q2 s) hz))
                              (mul (q3 s) hy)) in
    let n2 := add (q2 s) (add (sub (mul (q0 s) hy) (mul (q1 s) hz))
                              (mul (q3 s) hx)) in
    let n3 := add (q3 s) (sub (add (mul (q0 s) hz) (mul (q1 s) hy))
                              (mul (q2 s) hx)) in
    let r := lib_pow (add (add (add (mul n0 n0) (mul n1 n1)) (mul n2 n2))
                          (mul n3 n3)) (opp half) in
    mkQuaternion (mul n0 r) (mul n1 r) (mul n2 r) (mul n3 r).
Proof. reflexivity. Qed.

Lemma closing_blocks_nan_state (s : state float) (gx gy gz : float) :
  q0 s = nan \/ q1 s = nan \/ q2 s = nan \/ q3 s = nan ->
  getQuaternion (normalise (integrate_rate s gx gy gz))
  = mkQuaternion nan nan nan nan.
Proof.
  intros H. rewrite closing_blocks. cbv zeta.
  destruct H as [H | [H | [H | H]]]; rewrite H;
    autorewrite with nan_absorbs; reflexivity.
Qed.

Lemma closing_blocks_nan_rate (s : state float) (gx gy gz : float) :
  gx = nan \/ gy = nan \/ gz = nan ->
  getQuaternion (normalise (integrate_rate s gx gy gz))
  = mkQuaternion nan nan nan nan.
Proof.
  intros H. rewrite closing_blocks. cbv zeta.
  destruct H as [H | [H | H]]; rewrite H;
    autorewrite with nan_absorbs; reflexivity.
Qed.

Lemma apply_feedback_nan_rate (s : state float) (gx gy gz ex ey ez : float) :
  gx = nan \/ gy = nan \/ gz = nan ->
  let '(gx', gy', gz', _) := apply_feedback s gx gy gz ex ey ez in
  gx' = nan \/ gy' = nan \/ gz' = nan.
Proof.
  intros H. unfold apply_feedback.
  destruct (twoKi s >? lit_0)%js; cbn -[add mul];
    change (@num_add float number) with add;
    destruct H as [H | [H | H]]; rewrite H;
    autorewrite with nan_absorbs; auto.
Qed.

(** X1.  NaN is absorbing: from a state with NaN in any component of the
    quaternion, whatever the [Math] library and the arguments, a call of
    [update] leaves all four components NaN, and so does every longer run
    of calls. *)
Theorem nan_quaternion_is_absorbing
    (s : state float) (c : sample float) (cs : list (sample float)) :
  q0 s = nan \/ q1 s = nan \/ q2 s = nan \/ q3 s = nan ->
  getQuaternion (update_with s c) = mkQuaternion nan nan nan nan /\
  getQuaternion (run_updates s (c :: cs)) = mkQuaternion nan nan nan nan.
Proof.
  assert (Hone : forall (s : state float) (c : sample float),
            q0 s = nan \/ q1 s = nan \/ q2 s = nan \/ q3 s = nan ->
            getQuaternion (update_with s c) = mkQuaternion nan nan nan nan).
  { clear. intros s c H. unfold update_with.
    destruct (update_shape (N := number) s (s_gx c) (s_gy c) (s_gz c)
                (s_ax c) (s_ay c) (s_az c) (s_mx c) (s_my c) (s_mz c) (s_dt c))
      as (s2 & gx' & gy' & gz' & Heq & _ & _ & _ & H0 & H1 & H2 & H3).
    rewrite Heq. apply closing_blocks_nan_state.
    rewrite H0, H1, H2, H3. exact H. }
  intros H. split; [apply Hone, H |].
  cbn [run_updates fold_left].
  pose proof (Hone s c H) as Hq.
  generalize dependent (update_with s c). clear s c H.
  induction cs as [| c cs IH]; intros s Hq.
  - exact Hq.
  - cbn [fold_left]. apply IH, Hone. left.
    change (q0 s) with (w (getQuaternion s)). rewrite Hq. reflexivity.
Qed.

(** A NaN in any of the three gyro arguments reaches every component,
    with or without feedback. *)
Lemma nan_rate_poisons_every_call
    (s : state float) (gx gy gz ax ay az mx my mz : float) (dt : option float) :
  gx = nan \/ gy = nan \/ gz = nan ->
  getQuaternion (update s gx gy gz ax ay az mx my mz dt)
  = mkQuaternion nan nan nan nan.
Proof.
  intros H.
  destruct (update_paths (N := number) s gx gy gz ax ay az mx my mz dt)
    as [Ha Heq | ex ey ez Ha Heq].
  - rewrite Heq. apply closing_blocks_nan_rate, H.
  - pose proof (apply_feedback_nan_rate
                  (set_recipSampleFreq s (bit_or dt (recipSampleFreq s)))
                  ex ey ez H) as Hfb.
    destruct (apply_feedback _ gx gy gz ex ey ez) as [[[gx' gy'] gz'] s2].
    rewrite Heq. apply closing_blocks_nan_rate, Hfb.
Qed.


(** A zero times anything is a zero or NaN: a zero for the finite factors,
    NaN for the others. *)
Lemma mul_zero_any (a b : float) :
  is_zero a = true ->
  zero_or_nan (mul a b) = true /\ is_zero (mul a b) = is_finite b.
Proof.
  destruct a as [sa | | |]; try discriminate. intros _.
  destruct b as [sb | sb | | sb mb eb]; split; reflexivity.
Qed.

(** The three shapes of increment in the integration block, on operands
    that are zeros or NaN: the sum is a zero when all are zeros and NaN
    otherwise. *)
Lemma increment_of_zeros (d a b c : float) :
  is_zero d = true ->
  zero_or_nan a = true -> zero_or_nan b = true -> zero_or_nan c = true ->
  let all := is_zero a && is_zero b && is_zero c in
  (is_zero (add d (sub (sub a b) c)) = all /\
   zero_or_nan (add d (sub (sub a b) c)) = true) /\
  (is_zero (add d (sub (add a b) c)) = all /\
   zero_or_nan (add d (sub (add a b) c)) = true) /\
  (is_zero (add d (add (sub a b) c)) = all /\
   zero_or_nan (add d (add (sub a b) c)) = true).
Proof.
  destruct d as [sd | | |]; try discriminate. intros _.
  destruct a as [sa | | |]; try discriminate;
  destruct b as [sb | | |]; try discriminate;
  destruct c as [sc | | |]; try discriminate; intros _ _ _;
  try destruct sa; try destruct sb; try destruct sc; destruct sd;
  repeat split.
Qed.

Lemma zero_or_nan_cases (a : float) :
  zero_or_nan a = true -> is_zero a = false -> a = nan.
Proof. destruct a; try discriminate; reflexivity. Qed.

Lemma mul_zero_self (a : float) : is_zero a = true -> mul a a = pzero.
Proof. destruct a as [[|] | | |]; try discriminate; reflexivity. Qed.

Lemma mul_zero_pinf (a : float) : is_zero a = true -> mul a pinf = nan.
Proof. destruct a as [[|] | | |]; try discriminate; reflexivity. Qed.

Lemma closing_blocks_zero_state (s : state float) (gx gy gz : float) :
  conforms M ->
  is_zero (q0 s) = true -> is_zero (q1 s) = true ->
  is_zero (q2 s) = true -> is_zero (q3 s) = true ->
  getQuaternion (normalise (integrate_rate s gx gy gz))
  = mkQuaternion nan nan nan nan.
Proof.
  intros HM H0 H1 H2 H3. rewrite closing_blocks. cbv zeta.
  set (hx := mul gx _). set (hy := mul gy _). set (hz := mul gz _).
  assert (H1' : is_zero (opp (q1 s)) = true)
    by (destruct (q1 s); try discriminate; reflexivity).
  destruct (mul_zero_any (opp (q1 s)) hx H1') as [A1 B1].
  destruct (mul_zero_any (q2 s) hy H2) as [A2 B2].
  destruct (mul_zero_any (q3 s) hz H3) as [A3 B3].
  destruct (mul_zero_any (q0 s) hx H0) as [A4 B4].
  destruct (mul_zero_any (q2 s) hz H2) as [A5 B5].
  destruct (mul_zero_any (q3 s) hy H3) as [A6 B6].
  destruct (mul_zero_any (q0 s) hy H0) as [A7 B7].
  destruct (mul_zero_any (q1 s) hz H1) as [A8 B8].
  destruct (mul_zero_any (q3 s) hx H3) as [A9 B9].
  destruct (mul_zero_any (q0 s) hz H0) as [A10 B10].
  destruct (mul_zero_any (q1 s) hy H1) as [A11 B11].
  destruct (mul_zero_any (q2 s) hx H2) as [A12 B12].
  destruct (increment_of_zeros (q0 s) _ _ _ H0 A1 A2 A3) as [[Z0 N0] _].
  destruct (increment_of_zeros (q1 s) _ _ _ H1 A4 A5 A6) as [_ [[Z1 N1] _]].
  destruct (increment_of_zeros (q2 s) _ _ _ H2 A7 A8 A9) as [_ [_ [Z2 N2]]].
  destruct (increment_of_zeros (q3 s) _ _ _ H3 A10 A11 A12) as [_ [[Z3 N3] _]].
  cbv zeta in Z0, Z1, Z2, Z3.
  rewrite B1, B2, B3 in Z0. rewrite B4, B5, B6 in Z1.
  rewrite B7, B8, B9 in Z2. rewrite B10, B11, B12 in Z3.
  set (n0 := add (q0 s) _) in *. set (n1 := add (q1 s) _) in *.
  set (n2 := add (q2 s) _) in *. set (n3 := add (q3 s) _) in *.
  destruct (is_finite hx), (is_finite hy), (is_finite hz);
    cbn [andb] in Z0, Z1, Z2, Z3.
  1: { rewrite (mul_zero_self n0 Z0), (mul_zero_self n1 Z1),
               (mul_zero_self n2 Z2), (mul_zero_self n3 Z3).
       change (add (add (add pzero pzero) pzero) pzero) with pzero.
       rewrite (pow_pzero HM).
       rewrite (mul_zero_pinf n0 Z0), (mul_zero_pinf n1 Z1),
               (mul_zero_pinf n2 Z2), (mul_zero_pinf n3 Z3).
       reflexivity. }
  all: rewrite (zero_or_nan_cases n0 N0 Z0), (zero_or_nan_cases n1 N1 Z1),
               (zero_or_nan_cases n2 N2 Z2), (zero_or_nan_cases n3 N3 Z3);
       reflexivity.
Qed.

(** X3.  A zero quaternion is a trap: from a state whose quaternion is four
    zeros (what an overflowing rate leaves), every call of [update] gives
    (NaN, NaN, NaN, NaN): either a product of a zero with a rate that is not
    finite, or the normalisation of zeros by [pow(+0, -0.5) = +Infinity]. *)
Theorem zero_quaternion_is_a_trap (s : state float) (c : sample float) :
  conforms M ->
  is_zero (q0 s) = true -> is_zero (q1 s) = true ->
  is_zero (q2 s) = true -> is_zero (q3 s) = true ->
  getQuaternion (update_with s c) = mkQuaternion nan nan nan nan.
Proof.
  intros HM H0 H1 H2 H3. unfold update_with.
  destruct (update_shape (N := number) s (s_gx c) (s_gy c) (s_gz c)
              (s_ax c) (s_ay c) (s_az c) (s_mx c) (s_my c) (s_mz c) (s_dt c))
    as (s2 & gx' & gy' & gz' & Heq & _ & _ & _ & E0 & E1 & E2 & E3).
  rewrite Heq. apply closing_blocks_zero_state; [exact HM | | | |]; congruence.
Qed.


Lemma ToInt32_bitwise_or (a : option float) (b : float) :
  exists n : Z, (- 2 ^ 31 <= n < 2 ^ 31)%Z /\
    bitwise_or a b = of_Z n /\ ToInt32 (bitwise_or a b) = n.
Proof.
  unfold bitwise_or. set (n := wrap32 _).
  assert (Hn : (- 2 ^ 31 <= n < 2 ^ 31)%Z) by apply wrap32_range.
  exists n. repeat split; try lia. apply ToInt32_of_Z, Hn.
Qed.

Lemma bitwise_or_absent_whole (n : Z) :
  (- 2 ^ 31 <= n < 2 ^ 31)%Z -> bitwise_or None (of_Z n) = of_Z n.
Proof.
  intros Hn. unfold bitwise_or.
  rewrite ToInt32_of_Z, Z.lor_0_l, wrap32_small by lia. reflexivity.
Qed.

(** X4.  After any call the stored timestep is a whole number n of 32 bits
    (ToInt32 gives it back), whatever was stored and passed before; and it
    is still n after any further calls that leave [deltaTimeSec] out. *)
Theorem stored_timestep_is_whole
    (s : state float) (c : sample float) (cs : list (sample float)) :
  forallb no_dt cs = true ->
  exists n : Z,
    (- 2 ^ 31 <= n < 2 ^ 31)%Z /\
    recipSampleFreq (update_with s c) = of_Z n /\
    ToInt32 (recipSampleFreq (update_with s c)) = n /\
    recipSampleFreq (run_updates (update_with s c) cs) = of_Z n.
Proof.
  intros Hcs.
  destruct (ToInt32_bitwise_or (s_dt c) (recipSampleFreq s))
    as (n & Hn & Hof & Hto).
  assert (H1 : recipSampleFreq (update_with s c) = of_Z n).
  { unfold update_with. rewrite (update_recipSampleFreq (N := number)).
    exact Hof. }
  exists n. split; [exact Hn |]. split; [exact H1 |].
  split; [rewrite H1; apply ToInt32_of_Z, Hn |].
  generalize dependent (update_with s c). clear s c Hof Hto.
  induction cs as [| c cs IH]; intros s H1.
  - exact H1.
  - cbn [forallb] in Hcs. apply andb_prop in Hcs. destruct Hcs as [Hc Hcs].
    cbn [run_updates fold_left]. apply (IH Hcs).
    unfold update_with. rewrite (update_recipSampleFreq (N := number)), H1.
    unfold no_dt in Hc. destruct (s_dt c); [discriminate Hc |].
    apply (bitwise_or_absent_whole Hn).
Qed.

(** X5.  [Mahony] accepts a sample interval that is zero, infinite or NaN
    (NaN is what a missing argument becomes): the filter starts at the
    identity with a stored interval that is a zero, an infinity or NaN, whose
    ToInt32 is 0, so the first call without [deltaTimeSec] stores +0. *)
Theorem degenerate_sample_interval
    (sampleInterval : float) (c : sample float) :
  is_zero sampleInterval = true \/ is_finite sampleInterval = false ->
  let s := Mahony sampleInterval in
  (is_zero (recipSampleFreq s) = true \/ is_finite (recipSampleFreq s) = false) /\
  getQuaternion s = mkQuaternion one pzero pzero pzero /\
  ToInt32 (recipSampleFreq s) = 0%Z /\
  (s_dt c = None -> recipSampleFreq (update_with s c) = pzero).
Proof.
  intros H s.
  assert (Hr : recipSampleFreq s = div one (div thousand sampleInterval))
    by reflexivity.
  assert (Hcases : (is_zero (recipSampleFreq s) = true \/
                    is_finite (recipSampleFreq s) = false) /\
                   ToInt32 (recipSampleFreq s) = 0%Z).
  { rewrite Hr. destruct sampleInterval as [[|] | [|] | | sg m e];
      try (split; [auto | reflexivity]).
    destruct H as [H | H]; discriminate H. }
  destruct Hcases as [Hc Ht].
  repeat split; try assumption.
  intros Hdt. unfold update_with.
  rewrite (update_recipSampleFreq (N := number)), Hdt.
  change (bit_or None (recipSampleFreq s)) with (bitwise_or None (recipSampleFreq s)).
  unfold bitwise_or. rewrite Ht. reflexivity.
Qed.

(** [toVector] on a new filter and after [initialise]. *)
Lemma toVector_identity (s : state float) :
  conforms M ->
  q0 s = one -> is_zero (q1 s) = true -> is_zero (q2 s) = true ->
  is_zero (q3 s) = true ->
  toVector s = mkAxisAngle pzero nan nan nan.
Proof.
  intros HM H0 H1 H2 H3.
  assert (Hv : toVector s
               = mkAxisAngle (mul two (lib_acos (q0 s)))
                   (div (q1 s) (lib_sin (div (mul two (lib_acos (q0 s))) two)))
                   (div (q2 s) (lib_sin (div (mul two (lib_acos (q0 s))) two)))
                   (div (q3 s) (lib_sin (div (mul two (lib_acos (q0 s))) two))))
    by reflexivity.
  rewrite Hv, H0, (acos_one HM).
  change (mul two pzero) with pzero. change (div pzero two) with pzero.
  rewrite (sin_pzero HM).
  destruct (q1 s) as [[|] | | |]; try discriminate H1;
  destruct (q2 s) as [[|] | | |]; try discriminate H2;
  destruct (q3 s) as [[|] | | |]; try discriminate H3; reflexivity.
Qed.

(** X6.  [toVector] on a new filter, and after [initialise] with finite
    arguments from any state, returns angle +0 and the axis
    (NaN, NaN, NaN). *)
Theorem toVector_undefined_until_rotated
    (s : state float) (sampleInterval amx amy amz : float) :
  conforms M ->
  is_finite amx = true -> is_finite amy = true -> is_finite amz = true ->
  toVector (Mahony sampleInterval) = mkAxisAngle pzero nan nan nan /\
  toVector (initialise s amx amy amz) = mkAxisAngle pzero nan nan nan.
Proof.
  intros HM Hx Hy Hz. split.
  - apply toVector_identity; try assumption; reflexivity.
  - assert (Hinit : initialise s amx amy amz
                  = set_quaternion s (lib_cos pzero)
                      (mul amx (lib_sin pzero)) (mul amy (lib_sin pzero))
                      (mul amz (lib_sin pzero))) by reflexivity.
    rewrite (cos_pzero HM), (sin_pzero HM) in Hinit. rewrite Hinit.
    apply toVector_identity; try assumption; try reflexivity;
      cbn [set_quaternion q1 q2 q3]; apply mul_finite_zero; auto.
Qed.


Lemma nf_mul_l (a b : float) : is_finite a = false -> is_finite (mul a b) = false.
Proof. destruct a as [| | |]; try discriminate; destruct b; reflexivity. Qed.
Lemma nf_mul_r (a b : float) : is_finite b = false -> is_finite (mul a b) = false.
Proof. destruct b as [| | |]; try discriminate; destruct a; reflexivity. Qed.
Lemma nf_add_l (a b : float) : is_finite a = false -> is_finite (add a b) = false.
Proof.
  destruct a as [| [|] | |]; try discriminate; destruct b as [| [|] | |]; reflexivity.
Qed.
Lemma nf_add_r (a b : float) : is_finite b = false -> is_finite (add a b) = false.
Proof.
  destruct b as [| [|] | |]; try discriminate; destruct a as [| [|] | |]; reflexivity.
Qed.
Lemma nf_sub_l (a b : float) : is_finite a = false -> is_finite (sub a b) = false.
Proof.
  destruct a as [| [|] | |]; try discriminate; destruct b as [| [|] | |]; reflexivity.
Qed.
Lemma nf_sub_r (a b : float) : is_finite b = false -> is_finite (sub a b) = false.
Proof.
  destruct b as [| [|] | |]; try discriminate; destruct a as [| [|] | |]; reflexivity.
Qed.
Lemma nf_opp (a : float) : is_finite a = false -> is_finite (opp a) = false.
Proof. destruct a; try discriminate; reflexivity. Qed.

Create HintDb non_finite discriminated.
#[local] Hint Resolve nf_mul_l nf_mul_r nf_add_l nf_add_r nf_sub_l nf_sub_r
  nf_opp : non_finite.

(** The square of a number that is not finite is +Infinity or NaN, and so is
    a sum of such squares. *)
Lemma square_non_finite (a : float) :
  is_finite a = false -> pinf_or_nan (mul a a) = true.
Proof. destruct a as [| [|] | |]; try discriminate; reflexivity. Qed.

Lemma add_pinf_or_nan (a b : float) :
  pinf_or_nan a = true -> pinf_or_nan b = true -> pinf_or_nan (add a b) = true.
Proof.
  destruct a as [| [|] | |]; try discriminate;
  destruct b as [| [|] | |]; try discriminate; reflexivity.
Qed.

Lemma mul_non_finite_by_rsqrt (a S : float) :
  conforms M -> is_finite a = false -> pinf_or_nan S = true ->
  mul a (lib_pow S (opp half)) = nan.
Proof.
  intros HM Ha HS.
  destruct S as [| [|] | |]; try discriminate.
  - change (S754_infinity false) with pinf. rewrite (pow_pinf HM).
    destruct a as [| [|] | |]; try discriminate; reflexivity.
  - change S754_nan with nan. rewrite (pow_nan HM), mul_nan_r. reflexivity.
Qed.

Lemma closing_blocks_non_finite (s : state float) (gx gy gz : float) :
  conforms M ->
  is_finite (q0 s) = false \/ is_finite (q1 s) = false \/
  is_finite (q2 s) = false \/ is_finite (q3 s) = false \/
  is_finite gx = false \/ is_finite gy = false \/ is_finite gz = false ->
  getQuaternion (normalise (integrate_rate s gx gy gz))
  = mkQuaternion nan nan nan nan.
Proof.
  intros HM H. rewrite closing_blocks. cbv zeta.
  set (hx := mul gx _). set (hy := mul gy _). set (hz := mul gz _).
  set (n0 := add (q0 s) _). set (n1 := add (q1 s) _).
  set (n2 := add (q2 s) _). set (n3 := add (q3 s) _).
  assert (H' : is_finite (q0 s) = false \/ is_finite (q1 s) = false \/
               is_finite (q2 s) = false \/ is_finite (q3 s) = false \/
               is_finite hx = false \/ is_finite hy = false \/
               is_finite hz = false).
  { destruct H as [H | [H | [H | [H | [H | [H | H]]]]]]; auto 8;
      do 4 right; unfold hx, hy, hz; auto 8 with non_finite. }
  clear H.
  assert (F0 : is_finite n0 = false)
    by (unfold n0; destruct H' as [H | [H | [H | [H | [H | [H | H]]]]]];
        auto 8 with non_finite).
  assert (F1 : is_finite n1 = false)
    by (unfold n1; destruct H' as [H | [H | [H | [H | [H | [H | H]]]]]];
        auto 8 with non_finite).
  assert (F2 : is_finite n2 = false)
    by (unfold n2; destruct H' as [H | [H | [H | [H | [H | [H | H]]]]]];
        auto 8 with non_finite).
  assert (F3 : is_finite n3 = false)
    by (unfold n3; destruct H' as [H | [H | [H | [H | [H | [H | H]]]]]];
        auto 8 with non_finite).
  clearbody n0 n1 n2 n3.
  assert (HS : pinf_or_nan (add (add (add (mul n0 n0) (mul n1 n1)) (mul n2 n2))
                                (mul n3 n3)) = true)
    by (repeat apply add_pinf_or_nan; apply square_non_finite; assumption).
  rewrite (mul_non_finite_by_rsqrt n0 _ HM F0 HS), (mul_non_finite_by_rsqrt n1 _ HM F1 HS),
          (mul_non_finite_by_rsqrt n2 _ HM F2 HS), (mul_non_finite_by_rsqrt n3 _ HM F3 HS).
  reflexivity.
Qed.

Lemma apply_feedback_non_finite (s : state float) (gx gy gz ex ey ez : float) :
  is_finite gx = false \/ is_finite gy = false \/ is_finite gz = false ->
  let '(gx', gy', gz', _) := apply_feedback s gx gy gz ex ey ez in
  is_finite gx' = false \/ is_finite gy' = false \/ is_finite gz' = false.
Proof.
  intros H. unfold apply_feedback.
  destruct (twoKi s >? lit_0)%js;
    change (@num_add float number) with add;
    destruct H as [H | [H | H]]; auto 8 with non_finite.
Qed.

Lemma apply_feedback_nan_error (s : state float) (gx gy gz ex ey ez : float) :
  ex = nan \/ ey = nan \/ ez = nan ->
  let '(gx', gy', gz', _) := apply_feedback s gx gy gz ex ey ez in
  gx' = nan \/ gy' = nan \/ gz' = nan.
Proof.
  intros H. unfold apply_feedback.
  destruct (twoKi s >? lit_0)%js;
    change (@num_add float number) with add;
    change (@num_mul float number) with mul;
    destruct H as [H | [H | H]]; rewrite H;
    rewrite ?mul_nan_r, ?mul_nan_l, ?add_nan_r, ?add_nan_l; auto.
Qed.

(** X7.  Infinities fare no better than NaN: with a number that is not
    finite (NaN or an infinity) in any component of the quaternion or in any
    gyro argument, a call of [update] leaves (NaN, NaN, NaN, NaN), in either
    variant: the squared norm is +Infinity or NaN and the normalisation
    multiplies by [pow] of it, +0 or NaN. *)
Theorem non_finite_never_recovers
    (s : state float) (gx gy gz ax ay az mx my mz : float) (dt : option float) :
  conforms M ->
  is_finite (q0 s) = false \/ is_finite (q1 s) = false \/
  is_finite (q2 s) = false \/ is_finite (q3 s) = false \/
  is_finite gx = false \/ is_finite gy = false \/ is_finite gz = false ->
  getQuaternion (update s gx gy gz ax ay az mx my mz dt)
  = mkQuaternion nan nan nan nan.
Proof.
  intros HM H.
  destruct (update_paths (N := number) s gx gy gz ax ay az mx my mz dt)
    as [Ha Heq | ex ey ez Ha Heq].
  - rewrite Heq. apply closing_blocks_non_finite; [exact HM | exact H].
  - set (s1 := set_recipSampleFreq s _) in *.
    pose proof (apply_feedback_keeps (N := number) s1 gx gy gz ex ey ez) as Hk.
    pose proof (apply_feedback_non_finite s1 gx gy gz ex ey ez) as Hfb.
    destruct (apply_feedback s1 gx gy gz ex ey ez) as [[[gx' gy'] gz'] s2].
    cbn [snd] in Hk. destruct Hk as (_ & _ & _ & K0 & K1 & K2 & K3).
    rewrite Heq. apply closing_blocks_non_finite; [exact HM |].
    rewrite K0, K1, K2, K3.
    destruct H as [H | [H | [H | [H | H]]]];
      [auto 8 | auto 8 | auto 8 | auto 8 | do 4 right; apply Hfb, H].
Qed.

(** What the feedback blocks compute from a NaN reading. *)
Lemma imu_feedback_nan_reading (s : state float) (gx gy gz ax ay az : float) :
  ax = nan \/ ay = nan \/ az = nan ->
  let '(gx', gy', gz', _) := imu_feedback s gx gy gz ax ay az in
  gx' = nan \/ gy' = nan \/ gz' = nan.
Proof.
  intros H. unfold imu_feedback. cbv zeta.
  apply apply_feedback_nan_error.
  change (@num_add float number) with add. change (@num_mul float number) with mul.
  change (@num_sub float number) with sub.
  destruct H as [H | [H | H]]; rewrite H;
    rewrite ?mul_nan_l, ?mul_nan_r, ?sub_nan_l, ?sub_nan_r; auto.
Qed.

Lemma sqrt_nan : sqrt nan = nan.
Proof. reflexivity. Qed.

Lemma ahrs_feedback_nan_reading
    (s : state float) (gx gy gz ax ay az mx my mz : float) :
  ax = nan \/ ay = nan \/ az = nan \/ mx = nan \/ my = nan \/ mz = nan ->
  let '(gx', gy', gz', _) := ahrs_feedback s gx gy gz ax ay az mx my mz in
  gx' = nan \/ gy' = nan \/ gz' = nan.
Proof.
  intros H. unfold ahrs_feedback. cbv zeta.
  apply apply_feedback_nan_error.
  change (@num_add float number) with add. change (@num_mul float number) with mul.
  change (@num_sub float number) with sub. change (@Math_sqrt float number) with sqrt.
  destruct H as [H | [H | [H | [H | [H | H]]]]]; rewrite H;
    repeat (rewrite ?mul_nan_l, ?mul_nan_r, ?sub_nan_l, ?sub_nan_r,
                    ?add_nan_l, ?add_nan_r, ?sqrt_nan); auto.
Qed.

Lemma nan_reading_poisons
    (s : state float) (gx gy gz ax ay az mx my mz : float) (dt : option float) :
  ax = nan \/ ay = nan \/ az = nan \/
  (all_zero ax ay az = false /\ (mx = nan \/ my = nan \/ mz = nan)) ->
  getQuaternion (update s gx gy gz ax ay az mx my mz dt)
  = mkQuaternion nan nan nan nan.
Proof.
  intros H.
  assert (Ha : all_zero ax ay az = false).
  { destruct H as [H | [H | [H | [H _]]]]; try exact H;
      rewrite all_zero_is_zero, H; cbn;
      rewrite ?andb_false_r; reflexivity. }
  unfold update, mahonyAHRSupdate, mahonyAHRSupdateIMU, ahrs_body.
  rewrite Ha. cbn [negb].
  set (s1 := set_recipSampleFreq s _).
  destruct (all_zero mx my mz) eqn:Hm.
  - assert (Hacc : ax = nan \/ ay = nan \/ az = nan).
    { destruct H as [H | [H | [H | [_ H]]]]; auto.
      rewrite all_zero_is_zero in Hm.
      destruct H as [H | [H | H]]; rewrite H in Hm; cbn in Hm;
        rewrite ?andb_false_r in Hm; discriminate Hm. }
    pose proof (@imu_feedback_nan_reading s1 gx gy gz ax ay az Hacc) as Hfb.
    destruct (imu_feedback s1 gx gy gz ax ay az) as [[[gx' gy'] gz'] s2].
    apply closing_blocks_nan_rate, Hfb.
  - assert (Hrd : ax = nan \/ ay = nan \/ az = nan \/
                  mx = nan \/ my = nan \/ mz = nan) by tauto.
    pose proof (@ahrs_feedback_nan_reading s1 gx gy gz ax ay az mx my mz Hrd)
      as Hfb.
    destruct (ahrs_feedback s1 gx gy gz ax ay az mx my mz)
      as [[[gx' gy'] gz'] s2].
    apply closing_blocks_nan_rate, Hfb.
Qed.

(** X2.  No argument is screened: a NaN in any gyro argument, in any
    accelerometer argument, or (when the accelerometer does not read zero)
    in any magnetometer argument makes all four components of the
    quaternion NaN, from every state and with every [Math] library. *)
Theorem nan_argument_poisons
    (s : state float) (gx gy gz ax ay az mx my mz : float) (dt : option float) :
  gx = nan \/ gy = nan \/ gz = nan \/
  ax = nan \/ ay = nan \/ az = nan \/
  (all_zero ax ay az = false /\ (mx = nan \/ my = nan \/ mz = nan)) ->
  getQuaternion (update s gx gy gz ax ay az mx my mz dt)
  = mkQuaternion nan nan nan nan.
Proof.
  intros [H | [H | [H | H]]].
  - apply nan_rate_poisons_every_call. auto.
  - apply nan_rate_poisons_every_call. auto.
  - apply nan_rate_poisons_every_call. auto.
  - apply nan_reading_poisons, H.
Qed.

Lemma ToInt32_below_one (a : float) :
  valid a = true -> ltb (abs a) one = true -> ToInt32 a = 0%Z.
Proof.
  intros Hv Hlt.
  assert (Habs : truncate (abs a) = 0%Z).
  { apply truncate_unit_interval.
    - destruct a; exact Hv.
    - unfold in_unit_interval. rewrite Hlt, andb_true_r.
      destruct a as [[|] | [|] | | [|] m e]; try reflexivity; discriminate Hlt. }
  unfold ToInt32.
  assert (Ht : truncate a = 0%Z).
  { destruct a as [sa | sa | | sa m e]; try reflexivity.
    cbn [abs SFabs] in Habs. unfold truncate in *.
    destruct sa; [| exact Habs].
    change (S754_finite false m e) with (S754_finite false m e) in Habs.
    cbv zeta in *. rewrite Habs. reflexivity. }
  rewrite Ht. reflexivity.
Qed.

(** X8.  A [deltaTimeSec] below one second in magnitude is ignored: the
    call gives the very state that the same call without [deltaTimeSec]
    gives, from every state and for every other argument. *)
Theorem sub_second_dt_is_ignored
    (s : state float) (gx gy gz ax ay az mx my mz dt : float) :
  valid dt = true -> ltb (abs dt) one = true ->
  update s gx gy gz ax ay az mx my mz (Some dt)
  = update s gx gy gz ax ay az mx my mz None.
Proof.
  intros Hv Hlt. unfold update, mahonyAHRSupdate.
  assert (E : bit_or (Some dt) (recipSampleFreq s)
              = bit_or None (recipSampleFreq s)).
  { change (bitwise_or (Some dt) (recipSampleFreq s)
            = bitwise_or None (recipSampleFreq s)).
    unfold bitwise_or. rewrite (ToInt32_below_one dt Hv Hlt). reflexivity. }
  rewrite E. reflexivity.
Qed.


End EdgesOnBinary64.

(* ================================================================== *)
(** ** Further properties at binary64: a level filter *)

Section LevelOnBinary64.
Import B64 B64Facts Shape.
Context {M : MathLib}.
Local Open Scope Z_scope.
Local Open Scope js_scope.

Lemma add_pzero_square (a : float) : add pzero (mul a a) = mul a a.
Proof.
  destruct a as [sa | sa | | sa ma ea]; try reflexivity;
    try (destruct sa; reflexivity).
  assert (H : mul (S754_finite sa ma ea) (S754_finite sa ma ea)
              = binary_round_aux prec emax false (Z.pos (ma * ma)) (ea + ea) loc_Exact)
    by (destruct sa; reflexivity).
  rewrite H. clear H.
  destruct (binary_round_aux prec emax false (Z.pos (ma * ma)) (ea + ea) loc_Exact)
    as [s | s | | s m e] eqn:E; try reflexivity.
  destruct s; [| reflexivity].
  exfalso. unfold binary_round_aux in E.
  destruct (shr_fexp _ _ _ _ _) as [r1 e1]. destruct (shr_fexp _ _ _ _ _) as [r2 e2].
  destruct (shr_m r2); try discriminate E. destruct (e2 <=? emax - prec)%Z; discriminate E.
Qed.

Lemma mul_finite_inv_r (a b : float) :
  is_finite (mul a b) = true -> is_finite b = true.
Proof.
  destruct a as [sa | sa | | sa ma ea]; destruct b as [sb | sb | | sb mb eb];
    cbn; intros H; try discriminate H; reflexivity.
Qed.

(** The error of a reading along the z axis on a level filter: three zeros. *)
Lemma gravity_error_level (s : state float) (ax ay az : float) :
  q0 s = one -> q1 s = pzero -> q2 s = pzero -> q3 s = pzero ->
  is_zero ax = true -> is_zero ay = true ->
  is_finite (mul az (lib_pow (mul az az) (opp half))) = true ->
  let '(ex, ey, ez) := gravity_error s ax ay az in
  is_zero ex = true /\ is_zero ey = true /\ is_zero ez = true.
Proof.
  intros H0 H1 H2 H3 Hax Hay Hfin.
  unfold gravity_error. rewrite H0, H1, H2, H3.
  change (@lit_half float number) with half.
  change (@num_mul float number) with mul.
  change (@num_add float number) with add.
  change (@num_sub float number) with sub.
  change (@num_neg float number) with opp.
  change (@Math_pow float number) with lib_pow.
  assert (Hsum : add (add (mul ax ax) (mul ay ay)) (mul az az) = mul az az).
  { destruct ax as [sx | | |]; try discriminate Hax.
    destruct ay as [sy | | |]; try discriminate Hay.
    replace (add (mul (S754_zero sx) (S754_zero sx)) (mul (S754_zero sy) (S754_zero sy)))
      with pzero by (destruct sx, sy; reflexivity).
    apply add_pzero_square. }
  rewrite Hsum.
  set (r := lib_pow (mul az az) (opp half)) in *.
  pose proof (mul_finite_inv_r _ _ Hfin) as Hr.
  assert (Zx : is_zero (mul ax r) = true) by (apply mul_zero_finite; assumption).
  assert (Zy : is_zero (mul ay r) = true) by (apply mul_zero_finite; assumption).
  change (sub (mul pzero pzero) (mul one pzero)) with pzero.
  change (add (mul one pzero) (mul pzero pzero)) with pzero.
  change (add (sub (mul one one) half) (mul pzero pzero)) with half.
  repeat split; auto 8 with zeros.
Qed.


Lemma sbz_refl (a : float) : same_but_zero_sign a a.
Proof. left. reflexivity. Qed.

Lemma sbz_add_zero (a z : float) :
  is_zero z = true -> same_but_zero_sign (add a z) a.
Proof.
  destruct z as [sz | | |]; try discriminate. intros _.
  destruct a as [sa | sa | | sa ma ea].
  - right. destruct sa, sz; split; reflexivity.
  - left. reflexivity.
  - left. reflexivity.
  - left. reflexivity.
Qed.

Lemma sbz_mul_r (a b c : float) :
  same_but_zero_sign a b -> same_but_zero_sign (mul a c) (mul b c).
Proof.
  intros [-> | [Ha Hb]]; [left; reflexivity |].
  destruct a as [sa | | |]; try discriminate Ha.
  destruct b as [sb | | |]; try discriminate Hb.
  destruct c as [sc | sc | | sc mc ec]; cbn;
    first [left; reflexivity | right; split; reflexivity].
Qed.

Lemma sbz_mul_l (a b c : float) :
  same_but_zero_sign a b -> same_but_zero_sign (mul c a) (mul c b).
Proof.
  intros [-> | [Ha Hb]]; [left; reflexivity |].
  destruct a as [sa | | |]; try discriminate Ha.
  destruct b as [sb | | |]; try discriminate Hb.
  destruct c as [sc | sc | | sc mc ec]; cbn;
    first [left; reflexivity | right; split; reflexivity].
Qed.

Lemma sbz_add (a a' b b' : float) :
  same_but_zero_sign a a' -> same_but_zero_sign b b' ->
  same_but_zero_sign (add a b) (add a' b').
Proof.
  intros [-> | [Ha Ha']] [-> | [Hb Hb']].
  - left. reflexivity.
  - destruct b as [sb | | |]; try discriminate Hb.
    destruct b' as [sb' | | |]; try discriminate Hb'.
    destruct a' as [sa | sa | | sa ma ea];
      first [left; reflexivity | right; destruct sa, sb, sb'; split; reflexivity].
  - destruct a as [sa | | |]; try discriminate Ha.
    destruct a' as [sa' | | |]; try discriminate Ha'.
    destruct b' as [sb | sb | | sb mb eb];
      first [left; reflexivity | right; destruct sa, sa', sb; split; reflexivity].
  - right. split; apply add_zeros; assumption.
Qed.

Lemma sbz_sub (a a' b b' : float) :
  same_but_zero_sign a a' -> same_but_zero_sign b b' ->
  same_but_zero_sign (sub a b) (sub a' b').
Proof.
  intros [-> | [Ha Ha']] [-> | [Hb Hb']].
  - left. reflexivity.
  - destruct b as [sb | | |]; try discriminate Hb.
    destruct b' as [sb' | | |]; try discriminate Hb'.
    destruct a' as [sa | sa | | sa ma ea];
      first [left; reflexivity | right; destruct sa, sb, sb'; split; reflexivity].
  - destruct a as [sa | | |]; try discriminate Ha.
    destruct a' as [sa' | | |]; try discriminate Ha'.
    destruct b' as [sb | sb | | sb mb eb];
      first [left; reflexivity | right; destruct sa, sa', sb; split; reflexivity].
  - right. split; apply sub_zeros; assumption.
Qed.

Lemma add_one_sbz (a b : float) :
  same_but_zero_sign a b -> add one a = add one b.
Proof.
  intros [-> | [Ha Hb]]; [reflexivity |].
  destruct a as [sa | | |]; try discriminate Ha.
  destruct b as [sb | | |]; try discriminate Hb. reflexivity.
Qed.

Lemma add_pzero_sbz (a b : float) :
  same_but_zero_sign a b -> add pzero a = add pzero b.
Proof.
  intros [-> | [Ha Hb]]; [reflexivity |].
  destruct a as [sa | | |]; try discriminate Ha.
  destruct b as [sb | | |]; try discriminate Hb. destruct sa, sb; reflexivity.
Qed.

Create HintDb sbz discriminated.
#[local] Hint Resolve sbz_refl sbz_mul_r sbz_mul_l sbz_add sbz_sub : sbz.

(** On the identity quaternion the integration does not see the sign of a
    zero rate. *)
Lemma integrate_rate_identity_sbz (s : state float) (gx gy gz gx' gy' gz' : float) :
  q0 s = one -> q1 s = pzero -> q2 s = pzero -> q3 s = pzero ->
  same_but_zero_sign gx' gx -> same_but_zero_sign gy' gy ->
  same_but_zero_sign gz' gz ->
  integrate_rate s gx' gy' gz' = integrate_rate s gx gy gz.
Proof.
  intros H0 H1 H2 H3 Hx Hy Hz.
  unfold integrate_rate. rewrite H0, H1, H2, H3.
  change (@lit_half float number) with half.
  change (@num_mul float number) with mul.
  change (@num_add float number) with add.
  change (@num_sub float number) with sub.
  change (@num_neg float number) with opp.
  set (h := mul half (recipSampleFreq s)).
  f_equal; first [apply add_one_sbz | apply add_pzero_sbz]; auto 10 with sbz.
Qed.

(** X12.  A reading along z on a level filter.  From a state whose
    quaternion is (1, 0, 0, 0), with a finite proportional gain and the
    integral gain not positive, a call without magnetometer whose
    accelerometer reading is (0, 0, az), az not zero and its normalisation
    [az * Math.pow(az * az, -0.5)] finite, stores, for any rates and any
    [deltaTimeSec], the quaternion that the same call stores with no
    accelerometer reading at all: the error of the reading is three zeros,
    and on this quaternion the integration does not see the sign of a
    zero. *)
Theorem level_reading_is_no_reading
    (s : state float) (gx gy gz ax ay az mx my mz : float) (dt : option float) :
  q0 s = one -> q1 s = pzero -> q2 s = pzero -> q3 s = pzero ->
  is_finite (twoKp s) = true -> (twoKi s >? lit_0) = false ->
  is_zero ax = true -> is_zero ay = true -> is_zero az = false ->
  is_finite (mul az (lib_pow (mul az az) (opp half))) = true ->
  is_zero mx = true -> is_zero my = true -> is_zero mz = true ->
  getQuaternion (update s gx gy gz ax ay az mx my mz dt)
  = getQuaternion (update s gx gy gz pzero pzero pzero mx my mz dt).
Proof.
  intros H0 H1 H2 H3 Hkp Hki Hax Hay Haz Hfin Hmx Hmy Hmz.
  set (s1 := set_recipSampleFreq s (bit_or dt (recipSampleFreq s))).
  assert (Hm : all_zero mx my mz = true)
    by (rewrite all_zero_is_zero, Hmx, Hmy, Hmz; reflexivity).
  assert (Ha : all_zero ax ay az = false)
    by (rewrite all_zero_is_zero, Hax, Hay, Haz; reflexivity).
  unfold update, mahonyAHRSupdate. fold s1. rewrite Hm.
  unfold mahonyAHRSupdateIMU. rewrite Ha.
  change (all_zero (N := number) pzero pzero pzero) with true. cbn [negb].
  rewrite imu_feedback_error.
  pose proof (@gravity_error_level s1 ax ay az H0 H1 H2 H3 Hax Hay Hfin) as He.
  destruct (gravity_error s1 ax ay az) as [[ex ey] ez].
  destruct He as (Hex & Hey & Hez).
  unfold correct_and_integrate, apply_feedback.
  change (twoKi s1) with (twoKi s). rewrite Hki.
  change (twoKp s1) with (twoKp s).
  assert (Hq : forall a b c,
            integrate_rate (set_integralFB s1 a b c)
              (gx + twoKp s * ex) (gy + twoKp s * ey) (gz + twoKp s * ez)
            = set_integralFB (integrate_rate s1 gx gy gz) a b c).
  { intros a b c.
    transitivity (integrate_rate (set_integralFB s1 a b c) gx gy gz);
      [| reflexivity].
    apply integrate_rate_identity_sbz; try assumption;
      apply sbz_add_zero, mul_finite_zero; assumption. }
  rewrite Hq. reflexivity.
Qed.

(** X13.  Level and at rest.  From a state whose quaternion is
    (1, 0, 0, 0), with a finite proportional gain and the integral gain not
    positive, a call with zero rates, no magnetometer and an accelerometer
    reading (0, 0, az) as above leaves the quaternion (1, 0, 0, 0), bit for
    bit, and the integral terms at 0.0, whatever [deltaTimeSec] is. *)
Theorem level_rest_keeps_identity
    (s : state float) (gx gy gz ax ay az mx my mz : float) (dt : option float) :
  pow_one_exact M ->
  q0 s = one -> q1 s = pzero -> q2 s = pzero -> q3 s = pzero ->
  is_finite (twoKp s) = true -> (twoKi s >? lit_0) = false ->
  is_zero gx = true -> is_zero gy = true -> is_zero gz = true ->
  is_zero ax = true -> is_zero ay = true -> is_zero az = false ->
  is_finite (mul az (lib_pow (mul az az) (opp half))) = true ->
  is_zero mx = true -> is_zero my = true -> is_zero mz = true ->
  let s' := update s gx gy gz ax ay az mx my mz dt in
  getQuaternion s' = mkQuaternion one pzero pzero pzero /\
  integralFBx s' = pzero /\ integralFBy s' = pzero /\ integralFBz s' = pzero.
Proof.
  intros Hp H0 H1 H2 H3 Hkp Hki Hgx Hgy Hgz Hax Hay Haz Hfin Hmx Hmy Hmz s'.
  set (s1 := set_recipSampleFreq s (bit_or dt (recipSampleFreq s))).
  assert (Hm : all_zero mx my mz = true)
    by (rewrite all_zero_is_zero, Hmx, Hmy, Hmz; reflexivity).
  assert (Ha : all_zero ax ay az = false)
    by (rewrite all_zero_is_zero, Hax, Hay, Haz; reflexivity).
  assert (Hs' : s' = set_integralFB s1 pzero pzero pzero).
  { unfold s', update, mahonyAHRSupdate. fold s1. rewrite Hm.
    unfold mahonyAHRSupdateIMU. rewrite Ha. cbn [negb].
    rewrite imu_feedback_error.
    pose proof (@gravity_error_level s1 ax ay az H0 H1 H2 H3 Hax Hay Hfin) as He.
    destruct (gravity_error s1 ax ay az) as [[ex ey] ez].
    destruct He as (Hex & Hey & Hez).
    unfold correct_and_integrate, apply_feedback.
    change (twoKi s1) with (twoKi s). rewrite Hki.
    change (twoKp s1) with (twoKp s).
    rewrite integrate_rate_identity; try assumption.
    - apply normalise_identity; assumption.
    - apply half_bitwise_or_finite.
    - apply add_zeros; [assumption | apply mul_finite_zero; assumption].
    - apply add_zeros; [assumption | apply mul_finite_zero; assumption].
    - apply add_zeros; [assumption | apply mul_finite_zero; assumption]. }
  rewrite Hs'. unfold getQuaternion, s1. cbn. rewrite H0, H1, H2, H3.
  repeat split.
Qed.

End LevelOnBinary64.

(* ================================================================== *)
(** ** Further properties at binary64: a filter that never moves, and the
       norm before the first call *)

Section Frozen.
Import B64 B64Facts Shape Measure RoundingError.
Context {M : MathLib}.
Local Open Scope Z_scope.
Local Open Scope js_scope.

(** With a stored timestep of +0 the integration gives the identity
    quaternion back, bit for bit, for any finite rates. *)
Lemma integrate_rate_frozen (s : state float) (gx gy gz : float) :
  q0 s = one -> q1 s = pzero -> q2 s = pzero -> q3 s = pzero ->
  recipSampleFreq s = pzero ->
  is_finite gx = true -> is_finite gy = true -> is_finite gz = true ->
  integrate_rate s gx gy gz = s.
Proof.
  intros H0 H1 H2 H3 Hr Hx Hy Hz.
  destruct s as [r kp ki a b c d ix iy iz].
  cbn [q0 q1 q2 q3 recipSampleFreq] in H0, H1, H2, H3, Hr.
  subst a b c d r.
  unfold integrate_rate, set_quaternion.
  cbn [recipSampleFreq twoKp twoKi q0 q1 q2 q3 integralFBx integralFBy integralFBz].
  change (@lit_half float number) with half.
  change (@num_mul float number) with mul.
  change (mul half pzero) with pzero.
  pose proof (mul_finite_zero gx pzero Hx eq_refl) as Zx.
  pose proof (mul_finite_zero gy pzero Hy eq_refl) as Zy.
  pose proof (mul_finite_zero gz pzero Hz eq_refl) as Zz.
  destruct (mul gx pzero) as [sx | | |]; try discriminate Zx.
  destruct (mul gy pzero) as [sy | | |]; try discriminate Zy.
  destruct (mul gz pzero) as [sz | | |]; try discriminate Zz.
  destruct sx, sy, sz; reflexivity.
Qed.

Lemma coasting_step (s : state float) (c : sample float) :
  pow_one_exact M ->
  q0 s = one -> q1 s = pzero -> q2 s = pzero -> q3 s = pzero ->
  ToInt32 (recipSampleFreq s) = 0%Z ->
  coasting c = true ->
  update_with s c = set_recipSampleFreq s pzero.
Proof.
  intros Hp H0 H1 H2 H3 Hr Hc. unfold coasting in Hc.
  repeat (apply andb_prop in Hc; let H := fresh "Hc" in destruct Hc as [Hc H]).
  unfold update_with.
  destruct (update_paths s (s_gx c) (s_gy c) (s_gz c) (s_ax c) (s_ay c)
              (s_az c) (s_mx c) (s_my c) (s_mz c) (s_dt c))
    as [Ha Heq | ex ey ez Ha Heq].
  - rewrite Heq.
    change (bit_or (s_dt c) (recipSampleFreq s))
      with (bitwise_or (s_dt c) (recipSampleFreq s)).
    rewrite (bitwise_or_small _ _ Hc Hr).
    rewrite integrate_rate_frozen by (assumption || reflexivity).
    apply normalise_identity; assumption.
  - rewrite all_zero_is_zero in Ha.
    repeat match goal with H : is_zero _ = true |- _ => rewrite H in Ha; clear H end.
    discriminate Ha.
Qed.

Lemma coasting_run (cs : list (sample float)) (s : state float) :
  pow_one_exact M ->
  q0 s = one -> q1 s = pzero -> q2 s = pzero -> q3 s = pzero ->
  ToInt32 (recipSampleFreq s) = 0%Z ->
  forallb coasting cs = true ->
  getQuaternion (run_updates s cs) = mkQuaternion one pzero pzero pzero.
Proof.
  intros Hp. revert s.
  induction cs as [| c cs IH]; intros s H0 H1 H2 H3 Hr Hcs.
  - unfold getQuaternion. cbn. rewrite H0, H1, H2, H3. reflexivity.
  - cbn [forallb] in Hcs. apply andb_prop in Hcs. destruct Hcs as [Hc Hcs].
    cbn [run_updates fold_left].
    rewrite (coasting_step s c Hp H0 H1 H2 H3 Hr Hc).
    apply IH; try assumption. reflexivity.
Qed.

Lemma to_R_one : to_R one = 1%R.
Proof.
  cbn [to_R one]. change (IZR (Zpos 4503599627370496)) with (IZR (2 ^ 52)).
  rewrite Rmult_comm. apply pow2_neg_52.
Qed.

Lemma norm_R_identity (q : quaternion float) :
  q = mkQuaternion one pzero pzero pzero -> norm_R q = 1%R.
Proof.
  intros ->. unfold norm_R. cbn [w x y z]. rewrite to_R_one. cbn [to_R pzero].
  replace (1 * 1 + 0 * 0 + 0 * 0 + 0 * 0)%R with 1%R by ring.
  apply sqrt_1.
Qed.

(** X9.  A filter that never moves.  [Mahony(n)] for a whole number n of
    milliseconds from 1 to 999 stores a timestep below 1, which the first
    call replaces by 0.  Through any run of calls without accelerometer
    reading, with finite rates and [deltaTimeSec] left out or in [0, 1)
    (any magnetometer), the quaternion is (1, 0, 0, 0) after every call,
    bit for bit, and its norm is exactly 1: the rates are never
    integrated. *)
Theorem frozen_filter_stays_identity (n : Z) (cs : list (sample float)) :
  pow_one_exact M ->
  (1 <= n <= 999)%Z ->
  forallb coasting cs = true ->
  forall k : nat,
    let s := run_updates (Mahony (of_Z n)) (firstn k cs) in
    getQuaternion s = mkQuaternion one pzero pzero pzero /\
    norm_R (getQuaternion s) = 1%R.
Proof.
  intros Hp Hn Hcs k s.
  assert (Hq : getQuaternion s = mkQuaternion one pzero pzero pzero).
  { unfold s. apply coasting_run; try reflexivity; try assumption.
    - destruct (whole_ms_below_1000 (M := M) Hn) as [Hv Hu].
      apply ToInt32_unit_interval; assumption.
    - apply forallb_firstn, Hcs. }
  split; [exact Hq | apply norm_R_identity, Hq].
Qed.


End Frozen.

(* ================================================================== *)
(** ** The further properties at concrete inputs *)

Section MoreWitnesses.
Import B64 B64Facts Shape Run.
Local Open Scope Z_scope.

(** X1 on [Mahony(20)] after [update(NaN, 0, ...)], then two ordinary
    calls. *)
Lemma nan_quaternion_is_absorbing_witness :
  q0 (call (filter 20) (spin nan None)) = nan /\
  getQuaternion (calls (call (filter 20) (spin nan None)) [level; heading])
  = mkQuaternion nan nan nan nan.
Proof.
  split; [reflexivity |].
  apply (proj2 (nan_quaternion_is_absorbing (M := ref_math)
                  (call (filter 20) (spin nan None)) level [heading]
                  (or_introl eq_refl))).
Defined.

(** X2 at [update(0.1, 0, 0, 0, NaN, 1, 0.3, 0, 0.5)] on [Mahony(20)]. *)
Lemma nan_argument_poisons_witness :
  getQuaternion (update (N := ref_number) (filter 20)
                   (decimal 1 1) pzero pzero pzero nan one
                   (decimal 3 1) pzero (decimal 5 1) None)
  = mkQuaternion nan nan nan nan.
Proof.
  apply (nan_argument_poisons (M := ref_math)).
  do 4 right. left. reflexivity.
Defined.

(** X3 on the filter left by a rate of 1e200 over one second. *)
Lemma zero_quaternion_is_a_trap_witness :
  is_zero (q0 (call (filter 20) (spin (of_Z (10 ^ 200)) (Some one)))) = true /\
  getQuaternion (call (call (filter 20) (spin (of_Z (10 ^ 200)) (Some one)))
                      heading)
  = mkQuaternion nan nan nan nan.
Proof.
  split; [reflexivity |].
  apply (zero_quaternion_is_a_trap (M := ref_math)
           (call (filter 20) (spin (of_Z (10 ^ 200)) (Some one))) heading
           ref_math_conforms eq_refl eq_refl eq_refl eq_refl).
Defined.

(** X4 on [Mahony(20)]: a call with [deltaTimeSec = 1.5], then two calls
    without. *)
Lemma stored_timestep_is_whole_witness :
  forallb no_dt [still; level] = true /\
  recipSampleFreq
    (calls (call (filter 20) (spin one (Some (decimal 15 1)))) [still; level])
  = of_Z 1.
Proof.
  split; [reflexivity |].
  destruct (stored_timestep_is_whole (M := ref_math) (filter 20)
              (spin one (Some (decimal 15 1))) [still; level] eq_refl)
    as (n & _ & _ & Hn & Hrun).
  assert (E : n = 1) by (rewrite <- Hn; reflexivity).
  rewrite E in Hrun. exact Hrun.
Defined.

(** X5 at [Mahony(NaN)], that is [Mahony()]. *)
Lemma degenerate_sample_interval_witness :
  is_finite nan = false /\
  getQuaternion (Mahony (N := ref_number) nan)
  = mkQuaternion one pzero pzero pzero /\
  recipSampleFreq (call (Mahony (N := ref_number) nan) still) = pzero.
Proof.
  split; [reflexivity |].
  pose proof (degenerate_sample_interval (M := ref_math) nan still
                (or_intror eq_refl)) as H.
  cbv zeta in H. destruct H as (_ & Hq & _ & Hr).
  split; [exact Hq | exact (Hr eq_refl)].
Defined.

(** X6 at [Mahony(20)] and at [initialise(-3, 0.1, 2)]. *)
Lemma toVector_undefined_until_rotated_witness :
  is_finite (of_Z (-3)) = true /\
  toVector (N := ref_number) (filter 20) = mkAxisAngle pzero nan nan nan /\
  toVector (N := ref_number)
           (initialise (N := ref_number) (call (filter 20) heading)
                       (of_Z (-3)) (decimal 1 1) two)
  = mkAxisAngle pzero nan nan nan.
Proof.
  split; [reflexivity |].
  exact (toVector_undefined_until_rotated (M := ref_math)
           (call (filter 20) heading) (of_Z 20) (of_Z (-3)) (decimal 1 1) two
           ref_math_conforms eq_refl eq_refl eq_refl).
Defined.

(** X7 at [update(0, Infinity, 0, 0, 0, 1, 0, 0, 0, 1)] on [Mahony(20)]. *)
Lemma non_finite_never_recovers_witness :
  is_finite pinf = false /\
  getQuaternion (update (N := ref_number) (filter 20) pzero pinf pzero
                        pzero pzero one pzero pzero pzero (Some one))
  = mkQuaternion nan nan nan nan.
Proof.
  split; [reflexivity |].
  apply (non_finite_never_recovers (M := ref_math) (filter 20)
           pzero pinf pzero pzero pzero one pzero pzero pzero (Some one)
           ref_math_conforms).
  do 5 right. left. reflexivity.
Defined.

(** X8 at [deltaTimeSec = -0.02] on [Mahony(2000)] (2 stored). *)
Lemma sub_second_dt_is_ignored_witness :
  valid (decimal (-2) 2) = true /\
  ltb (abs (decimal (-2) 2)) one = true /\
  update (N := ref_number) (filter 2000) one pzero pzero pzero pzero one
         pzero pzero pzero (Some (decimal (-2) 2))
  = update (N := ref_number) (filter 2000) one pzero pzero pzero pzero one
           pzero pzero pzero None.
Proof.
  split; [reflexivity |]. split; [reflexivity |].
  exact (sub_second_dt_is_ignored (M := ref_math) (filter 2000)
           one pzero pzero pzero pzero one pzero pzero pzero
           (decimal (-2) 2) eq_refl eq_refl).
Defined.

(** X12 on [Mahony(20)] at [update(0.1, 0.2, 0.3, 0, 0, 9.81, 0, 0, 0, 1)]:
    what is stored is what [update(0.1, 0.2, 0.3, 0, 0, 0, 0, 0, 0, 1)]
    stores; a reading tilted towards x stores something else. *)
Lemma level_reading_is_no_reading_witness :
  is_zero (decimal 981 2) = false /\
  is_finite (mul (decimal 981 2)
                 (ref_pow (mul (decimal 981 2) (decimal 981 2)) (opp half)))
  = true /\
  getQuaternion (update (N := ref_number) (filter 20)
                        (decimal 1 1) (decimal 2 1) (decimal 3 1)
                        pzero pzero (decimal 981 2) pzero pzero pzero
                        (Some one))
  = getQuaternion (update (N := ref_number) (filter 20)
                          (decimal 1 1) (decimal 2 1) (decimal 3 1)
                          pzero pzero pzero pzero pzero pzero (Some one)) /\
  eqb (x (getQuaternion (call (filter 20) turning_tilted)))
      (x (getQuaternion (call (filter 20) falling))) = false.
Proof.
  split; [reflexivity |].
  assert (Hfin : is_finite (mul (decimal 981 2)
                   (ref_pow (mul (decimal 981 2) (decimal 981 2)) (opp half)))
                 = true) by (vm_compute; reflexivity).
  split; [exact Hfin |]. split; [| vm_compute; reflexivity].
  exact (level_reading_is_no_reading (M := ref_math) (filter 20)
           (decimal 1 1) (decimal 2 1) (decimal 3 1)
           pzero pzero (decimal 981 2) pzero pzero pzero (Some one)
           eq_refl eq_refl eq_refl eq_refl eq_refl eq_refl
           eq_refl eq_refl eq_refl Hfin eq_refl eq_refl eq_refl).
Defined.

(** X13 on [Mahony(20)] at [update(0, 0, 0, 0, 0, 9.81, 0, 0, 0, 1)]; a
    reading tilted towards x moves the quaternion. *)
Lemma level_rest_keeps_identity_witness :
  is_finite (mul (decimal 981 2)
                 (ref_pow (mul (decimal 981 2) (decimal 981 2)) (opp half)))
  = true /\
  getQuaternion (update (N := ref_number) (filter 20) pzero pzero pzero
                        pzero pzero (decimal 981 2) pzero pzero pzero
                        (Some one))
  = mkQuaternion one pzero pzero pzero /\
  is_identity (getQuaternion (call (filter 20) resting_tilted)) = false.
Proof.
  assert (Hfin : is_finite (mul (decimal 981 2)
                   (ref_pow (mul (decimal 981 2) (decimal 981 2)) (opp half)))
                 = true) by (vm_compute; reflexivity).
  split; [exact Hfin |]. split; [| vm_compute; reflexivity].
  pose proof (level_rest_keeps_identity (M := ref_math) (filter 20)
                pzero pzero pzero pzero pzero (decimal 981 2)
                pzero pzero pzero (Some one) ref_math_pow_one
                eq_refl eq_refl eq_refl eq_refl eq_refl eq_refl
                eq_refl eq_refl eq_refl eq_refl eq_refl eq_refl Hfin
                eq_refl eq_refl eq_refl) as H.
  cbv zeta in H. destruct H as (H & _). exact H.
Defined.

(** X9 on [Mahony(20)]: three calls with rates and a magnetometer reading but
    no accelerometer reading; with a timestep of 1 s the same rates do move
    the quaternion. *)
Lemma frozen_filter_stays_identity_witness :
  let cs := [spin one None; spin two (Some half);
             mkSample (decimal 1 1) (decimal 2 1) (decimal 3 1)
                      pzero pzero pzero (decimal 3 1) (decimal 4 1)
                      (decimal 5 1) None] in
  forallb coasting cs = true /\
  getQuaternion (calls (filter 20) (firstn 3 cs))
  = mkQuaternion one pzero pzero pzero /\
  is_identity (getQuaternion (call (filter 20) falling_heading)) = false.
Proof.
  intro cs. split; [reflexivity |]. split; [| vm_compute; reflexivity].
  pose proof (frozen_filter_stays_identity (M := ref_math) (n := 20) cs
                ref_math_pow_one ltac:(lia) eq_refl 3%nat) as H.
  cbv zeta in H. destruct H as [H _]. exact H.
Defined.


End MoreWitnesses.
